(** * dropbox-ignore-daemon: change detection engine

    A shallow embedding of the poller (incremental scanner), the watcher
    (debounced event loop), the state cache, the wrappers of the ignore
    attribute and the handler of the daemon, with the properties of
    their specification and further properties of the code.

    Conventions of the embedding:
    - [time.Time] is an instant in nanoseconds counted from Go's zero
      time, a [Z]; [time.Duration] is an int64 count of nanoseconds;
      every call of [time.Now()] in the source is a [now] argument here.
    - Go maps are stdpp [gmap]s, the set [map[string]struct{}] a [gset].
    - A [log.Logger] is the list of the records printed to it.
    - A callback ([Handler]) is a state-passing function over a handler
      state of arbitrary type.
    - A run of a [select] loop is driven by the list of the messages the
      loop receives, in the order in which [select] picks them. *)

From Stdlib Require Import ZArith String List Lia Sorting.Sorted.
From stdpp Require Import base gmap strings list fin_maps sorting.

Local Open Scope string_scope.
Local Open Scope list_scope.
Local Open Scope Z_scope.

Set Warnings "-register-all,-clear-no-such-hyp".

(** ** Go's [error] values that occur in the program *)

Inductive error : Type :=
| ErrSkipDir                                (* poller.ErrSkipDir *)
| SkipDir                                   (* filepath.SkipDir = fs.SkipDir *)
| SkipAll                                   (* filepath.SkipAll *)
| Canceled                                  (* context.Canceled *)
| DeadlineExceeded                          (* context.DeadlineExceeded *)
| ErrMsg (msg : string)                     (* errors.New, syscall errors *)
| ErrWrap (msg : string) (inner : error).   (* fmt.Errorf with %w *)

#[global] Instance error_eq_dec : EqDecision error.
Proof. solve_decision. Defined.

(** [errors.Is err target]: [err] or an error in its [Unwrap] chain is
    [target]. *)
Fixpoint errors_Is (err target : error) : bool :=
  bool_decide (err = target) ||
  match err with
  | ErrWrap _ inner => errors_Is inner target
  | _ => false
  end.

(** ** package time *)

Module time.

Definition Time := Z.
Definition Duration := Z.

Definition minDuration : Duration := - 2 ^ 63.
Definition maxDuration : Duration := 2 ^ 63 - 1.

Definition Millisecond : Duration := 1000000.
Definition Second : Duration := 1000 * Millisecond.
Definition Minute : Duration := 60 * Second.

Definition IsZero (t : Time) : bool := t =? 0.
Definition Before (t u : Time) : bool := t <? u.
Definition Equal (t u : Time) : bool := t =? u.

(** [t.Sub(u)]: the duration [t - u], saturated to the int64 range. *)
Definition Sub (t u : Time) : Duration :=
  Z.max minDuration (Z.min maxDuration (t - u)).

(** [time.Since(u)] is [time.Now().Sub(u)]. *)
Definition Since (now u : Time) : Duration := Sub now u.

End time.

(** ** File metadata *)

(** What [Lstat] reports about an entry apart from its name and kind:
    the modification time and, when [Sys()] is a [*syscall.Stat_t], the
    inode number (a uint64). *)
Record Meta : Type := mkMeta {
  mModTime : time.Time;
  mIno : option Z
}.

(** [fs.FileInfo] as the program reads it. *)
Record FileInfo : Type := mkFileInfo {
  fiName : string;
  fiIsDir : bool;
  fiModTime : time.Time;
  fiSys : option Z
}.

#[global] Instance Meta_eq_dec : EqDecision Meta.
Proof. solve_decision. Defined.
#[global] Instance FileInfo_eq_dec : EqDecision FileInfo.
Proof. solve_decision. Defined.

(** ** internal/state: the cache of processed files *)

Module state.

(** state_darwin.go, [getInode]: the inode of a [Stat_t], else 0. *)
Definition getInode (info : FileInfo) : Z :=
  match fiSys info with
  | Some ino => ino
  | None => 0
  end.

Record Entry : Type := mkEntry {
  Inode : Z;
  Mtime : time.Time;
  Added : time.Time
}.

Record Cache : Type := mkCache {
  entries : gmap string Entry;
  ttl : time.Duration
}.

Definition NewCache (ttl : time.Duration) : Cache :=
  {| entries := ∅; ttl := ttl |}.

(** [Has]: the answer and the cache after the lazy eviction. *)
Definition Has (now : time.Time) (path : string) (info : FileInfo)
    (c : Cache) : bool * Cache :=
  match entries c !! path with
  | None => (false, c)
  | Some entry =>
      if ttl c <? time.Since now (Added entry)
      then (false, {| entries := delete path (entries c); ttl := ttl c |})
      else ((Inode entry =? getInode info)
              && time.Equal (Mtime entry) (fiModTime info), c)
  end.

Definition Add (now : time.Time) (path : string) (info : FileInfo)
    (c : Cache) : Cache :=
  {| entries := <[path := {| Inode := getInode info;
                             Mtime := fiModTime info;
                             Added := now |}]> (entries c);
     ttl := ttl c |}.

Definition Remove (path : string) (c : Cache) : Cache :=
  {| entries := delete path (entries c); ttl := ttl c |}.

Definition Clean (now : time.Time) (c : Cache) : Cache :=
  {| entries := filter (fun kv => ¬ (ttl c < time.Sub now (Added kv.2)))
                       (entries c);
     ttl := ttl c |}.

Definition Size (c : Cache) : nat := size (entries c).

End state.

(** ** path/filepath: the tree walks of Go's standard library

    [filepath.WalkDir] and [filepath.Walk] belong to the standard library;
    they are embedded here because the walk callbacks of the program are
    only meaningful under them.  The file system a walk observes is a
    tree of nodes. *)

Module filepath.

(** - [File name meta]: an entry that is not a directory (regular file,
      symbolic link, ...); [meta = None] when [Lstat] on it fails.
    - [Dir name meta children rderr]: a directory; [children] are the
      entries [ReadDir] yields, in its order, and [rderr] is the error
      [ReadDir] reports with them, if any. *)
Inductive Node : Type :=
| File (name : string) (meta : option Meta)
| Dir (name : string) (meta : option Meta) (children : list Node)
      (rderr : option error).

Definition nodeName (n : Node) : string :=
  match n with File name _ | Dir name _ _ _ => name end.

Definition nodeIsDir (n : Node) : bool :=
  match n with File _ _ => false | Dir _ _ _ _ => true end.

Definition nodeMeta (n : Node) : option Meta :=
  match n with File _ meta | Dir _ meta _ _ => meta end.

(** [os.Lstat] on the node: its [FileInfo], or nothing on error. *)
Definition lstat (n : Node) : option FileInfo :=
  match nodeMeta n with
  | Some m => Some (mkFileInfo (nodeName n) (nodeIsDir n) (mModTime m) (mIno m))
  | None => None
  end.

(** The error value of a failed [Lstat]. *)
Definition lstatError : error := ErrMsg "lstat".

(** [fs.DirEntry]: [Name()], [IsDir()] and the lazy [Info()]. *)
Record DirEntry : Type := mkDirEntry {
  deName : string;
  deIsDir : bool;
  deInfo : option FileInfo
}.

Definition dirEntry (n : Node) : DirEntry :=
  {| deName := nodeName n; deIsDir := nodeIsDir n; deInfo := lstat n |}.

(** [filepath.Join path name] for a clean [path] that is not the root
    of the file system and the name of a directory entry. *)
Definition Join (path name : string) : string :=
  (path ++ "/" ++ name)%string.

(** The arguments [(d, err)] of a [fs.WalkDirFunc]: an entry to visit
    ([err == nil]), or an error, with the entry when there is one. *)
Inductive WalkDirArg : Type :=
| Visit (d : DirEntry)
| Failed (d : option DirEntry) (err : error).

Definition WalkDirFunc (S : Type) : Type :=
  string -> WalkDirArg -> S -> S * option error.

(** [walkDir]: first call on the entry; for a directory whose call
    returned nil, a second call when [ReadDir] failed, then the entries
    in order, [SkipDir] from one of them ending the loop. *)
Fixpoint walkDir {S : Type} (fn : WalkDirFunc S) (path : string)
    (n : Node) (s : S) : S * option error :=
  match n with
  | File _ _ => fn path (Visit (dirEntry n)) s
  | Dir _ _ children rderr =>
      match fn path (Visit (dirEntry n)) s with
      | (s1, Some err) =>
          (s1, if decide (err = SkipDir) then None else Some err)
      | (s1, None) =>
          match (match rderr with
                 | Some e => fn path (Failed (Some (dirEntry n)) e) s1
                 | None => (s1, None)
                 end) with
          | (s2, Some err) =>
              (s2, if decide (err = SkipDir) then None else Some err)
          | (s2, None) =>
              (fix loop (cs : list Node) (s : S) : S * option error :=
                 match cs with
                 | [] => (s, None)
                 | c :: cs' =>
                     match walkDir fn (Join path (nodeName c)) c s with
                     | (s', Some err) =>
                         if decide (err = SkipDir) then (s', None)
                         else (s', Some err)
                     | (s', None) => loop cs' s'
                     end
                 end) children s2
          end
      end
  end.

(** The loop of [walkDir] over the entries of a directory. *)
Fixpoint walkDirs {S : Type} (fn : WalkDirFunc S) (path : string)
    (cs : list Node) (s : S) : S * option error :=
  match cs with
  | [] => (s, None)
  | c :: cs' =>
      match walkDir fn (Join path (nodeName c)) c s with
      | (s', Some err) =>
          if decide (err = SkipDir) then (s', None) else (s', Some err)
      | (s', None) => walkDirs fn path cs' s'
      end
  end.

(** [filepath.WalkDir root fn]; [fs] is what is found at [root]
    ([None], or a node without metadata: [Lstat root] fails). *)
Definition WalkDir {S : Type} (fn : WalkDirFunc S) (root : string)
    (fs : option Node) (s : S) : S * option error :=
  let '(s', err) :=
    match fs with
    | Some n =>
        match nodeMeta n with
        | Some _ => walkDir fn root n s
        | None => fn root (Failed None lstatError) s
        end
    | None => fn root (Failed None lstatError) s
    end in
  (s', match err with
       | Some e =>
           if decide (e = SkipDir) then None
           else if decide (e = SkipAll) then None else Some e
       | None => None
       end).

(** The arguments [(info, err)] of a [filepath.WalkFunc]: the
    [FileInfo] of the entry, with the error of reading the directory if
    there is one, or the error of a failed [Lstat]. *)
Inductive WalkArg : Type :=
| Info (info : FileInfo) (err : option error)
| LstatFailed (err : error).

Definition WalkFunc (S : Type) : Type :=
  string -> WalkArg -> S -> S * option error.

(** [walk] of [filepath.Walk], on a node whose [Lstat] gave [info]. *)
Fixpoint walk {S : Type} (fn : WalkFunc S) (path : string) (n : Node)
    (info : FileInfo) (s : S) : S * option error :=
  match n with
  | File _ _ => fn path (Info info None) s
  | Dir _ _ children rderr =>
      match fn path (Info info rderr) s, rderr with
      | (s1, None), None =>
          (fix loop (cs : list Node) (s : S) : S * option error :=
             match cs with
             | [] => (s, None)
             | c :: cs' =>
                 match lstat c with
                 | None =>
                     match fn (Join path (nodeName c))
                              (LstatFailed lstatError) s with
                     | (s', Some err) =>
                         if decide (err = SkipDir) then loop cs' s'
                         else (s', Some err)
                     | (s', None) => loop cs' s'
                     end
                 | Some fi =>
                     match walk fn (Join path (nodeName c)) c fi s with
                     | (s', Some err) =>
                         if negb (fiIsDir fi) || negb (bool_decide (err = SkipDir))
                         then (s', Some err)
                         else loop cs' s'
                     | (s', None) => loop cs' s'
                     end
                 end
             end) children s1
      | (s1, err1), _ => (s1, err1)
      end
  end.

(** [filepath.Walk root fn]. *)
Definition Walk {S : Type} (fn : WalkFunc S) (root : string)
    (fs : option Node) (s : S) : S * option error :=
  let '(s', err) :=
    match fs with
    | Some n =>
        match lstat n with
        | Some info => walk fn root n info s
        | None => fn root (LstatFailed lstatError) s
        end
    | None => fn root (LstatFailed lstatError) s
    end in
  (s', match err with
       | Some e =>
           if decide (e = SkipDir) then None
           else if decide (e = SkipAll) then None else Some e
       | None => None
       end).

End filepath.

(** ** internal/poller: the incremental scanner *)

Module poller.
Import filepath.

Definition defaultScanInterval : time.Duration := 5 * time.Minute.

(** [Handler]: called with a path and its [FileInfo]; it may have
    effects of its own, kept in a handler state [H]. *)
Definition Handler (H : Type) : Type :=
  string -> FileInfo -> H -> H * option error.

(** The records the poller prints to its logger. *)
Inductive LogLine : Type :=
| LogInitialScanError (err : error)
| LogScanError (err : error)
| LogStartingScan (root : string)
| LogWalkError (path : string) (err : error)
| LogDirInfoFailed (path : string)
| LogSkippingIgnored (path : string)
| LogDirHandlerError (path : string) (err : error)
| LogInfoFailed (path : string)
| LogHandlerError (path : string) (err : error)
| LogScanCompleted (files dirs skipped : Z).

Record Poller : Type := mkPoller {
  root : string;
  interval : time.Duration;
  lastScan : time.Time;
  dirModTime : gmap string time.Time;
  logger : list LogLine;
  skipDirs : gmap string bool
}.

Record Config : Type := mkConfig {
  Root : string;            (* as [filepath.Abs] resolves it *)
  ScanInterval : time.Duration;
  Logger : list LogLine;
  SkipDirs : list string
}.

Definition defaultSkipDirs : gmap string bool :=
  <[".hg" := true]> (<[".svn" := true]> (<["node_modules" := true]>
    (<[".dropbox.cache" := true]> (<[".git" := true]> ∅)))).

Definition NewPoller (cfg : Config) : Poller :=
  {| root := Root cfg;
     interval := if ScanInterval cfg <=? 0 then defaultScanInterval
                 else ScanInterval cfg;
     lastScan := 0;
     dirModTime := ∅;
     logger := Logger cfg;
     skipDirs := foldl (fun m dir => <[dir := true]> m) defaultSkipDirs
                       (SkipDirs cfg) |}.

Definition printf (l : LogLine) (p : Poller) : Poller :=
  {| root := root p; interval := interval p; lastScan := lastScan p;
     dirModTime := dirModTime p; logger := logger p ++ [l];
     skipDirs := skipDirs p |}.

Definition setLastScan (t : time.Time) (p : Poller) : Poller :=
  {| root := root p; interval := interval p; lastScan := t;
     dirModTime := dirModTime p; logger := logger p;
     skipDirs := skipDirs p |}.

Definition setDirModTime (m : gmap string time.Time) (p : Poller) : Poller :=
  {| root := root p; interval := interval p; lastScan := lastScan p;
     dirModTime := m; logger := logger p; skipDirs := skipDirs p |}.

(** [p.skipDirs[name]]: the value stored, [false] for a missing key. *)
Definition isSkipDir (p : Poller) (name : string) : bool :=
  default false (skipDirs p !! name).

Definition shouldSkipDir (p : Poller) (path : string)
    (modTime : time.Time) : bool :=
  match dirModTime p !! path with
  | Some prevModTime => time.Equal modTime prevModTime
  | None => false
  end.

Definition updateDirModTime (path : string) (modTime : time.Time)
    (p : Poller) : Poller :=
  setDirModTime (<[path := modTime]> (dirModTime p)) p.

Definition cleanupDirModTime (visitedDirs : gset string) (p : Poller)
    : Poller :=
  setDirModTime (filter (fun kv => kv.1 ∈ visitedDirs) (dirModTime p)) p.

Definition SetSkipDir (name : string) (skip : bool) (p : Poller) : Poller :=
  {| root := root p; interval := interval p; lastScan := lastScan p;
     dirModTime := dirModTime p; logger := logger p;
     skipDirs := if skip then <[name := true]> (skipDirs p)
                 else delete name (skipDirs p) |}.

Definition GetLastScan (p : Poller) : time.Time := lastScan p.

Definition ClearCache (p : Poller) : Poller := setDirModTime ∅ p.

(** The state a scan works on: the poller, the local variables of
    [Scan], the state of the handler, and the list of the calls of the
    handler so far (a record of the run, not a variable of the
    source). *)
Record ScanState (H : Type) : Type := mkScanState {
  pol : Poller;
  fileCount : Z;
  dirCount : Z;
  skippedDirs : Z;
  visitedDirs : gset string;
  hstate : H;
  calls : list (string * FileInfo)
}.
Arguments mkScanState {H}.
Arguments pol {H}.
Arguments fileCount {H}.
Arguments dirCount {H}.
Arguments skippedDirs {H}.
Arguments visitedDirs {H}.
Arguments hstate {H}.
Arguments calls {H}.

Section Scan.
Context {H : Type} (handler : Handler H).

Definition withPol (f : Poller -> Poller) (s : ScanState H) : ScanState H :=
  mkScanState (f (pol s)) (fileCount s) (dirCount s) (skippedDirs s)
              (visitedDirs s) (hstate s) (calls s).

Definition incFileCount (s : ScanState H) : ScanState H :=
  mkScanState (pol s) (fileCount s + 1) (dirCount s) (skippedDirs s)
              (visitedDirs s) (hstate s) (calls s).

Definition incSkippedDirs (s : ScanState H) : ScanState H :=
  mkScanState (pol s) (fileCount s) (dirCount s) (skippedDirs s + 1)
              (visitedDirs s) (hstate s) (calls s).

(** [dirCount++; visitedDirs[path] = struct{}{}] *)
Definition enterDir (path : string) (s : ScanState H) : ScanState H :=
  mkScanState (pol s) (fileCount s) (dirCount s + 1) (skippedDirs s)
              ({[path]} ∪ visitedDirs s) (hstate s) (calls s).

(** [p.handler(path, info)] *)
Definition callHandler (path : string) (info : FileInfo)
    (s : ScanState H) : ScanState H * option error :=
  let '(h', r) := handler path info (hstate s) in
  (mkScanState (pol s) (fileCount s) (dirCount s) (skippedDirs s)
               (visitedDirs s) h' (calls s ++ [(path, info)]), r).

(** The name rule: a skip directory, or a dotted name other than ".". *)
Definition skipName (p : Poller) (name : string) : bool :=
  isSkipDir p name || String.prefix "." name && negb (String.eqb name ".").

(** The end of the directory branch of the callback: the name rule,
    then the modification time of the directory against the one
    remembered. *)
Definition checkDescend (lastScan : time.Time) (path name : string)
    (info : FileInfo) (s : ScanState H) : ScanState H * option error :=
  if skipName (pol s) name then (incSkippedDirs s, Some SkipDir)
  else if negb (time.IsZero lastScan) then
    if shouldSkipDir (pol s) path (fiModTime info) then (s, Some SkipDir)
    else (withPol (updateDirModTime path (fiModTime info)) s, None)
  else (s, None).

(** The function [Scan] passes to [filepath.WalkDir]. *)
Definition scanFn (lastScan : time.Time) : WalkDirFunc (ScanState H) :=
  fun path a s =>
    match a with
    | Failed _ err => (withPol (printf (LogWalkError path err)) s, None)
    | Visit d =>
        if deIsDir d then
          let s := enterDir path s in
          match deInfo d with
          | None => (withPol (printf (LogDirInfoFailed path)) s, None)
          | Some info =>
              match callHandler path info s with
              | (s, Some err) =>
                  if errors_Is err ErrSkipDir then
                    (incSkippedDirs
                       (withPol (printf (LogSkippingIgnored path)) s),
                     Some SkipDir)
                  else
                    checkDescend lastScan path (deName d) info
                      (withPol (printf (LogDirHandlerError path err)) s)
              | (s, None) => checkDescend lastScan path (deName d) info s
              end
          end
        else
          let s := incFileCount s in
          match deInfo d with
          | None => (withPol (printf (LogInfoFailed path)) s, None)
          | Some info =>
              if negb (time.IsZero lastScan)
                 && time.Before (fiModTime info) lastScan
              then (s, None)
              else
                match callHandler path info s with
                | (s, Some err) =>
                    (withPol (printf (LogHandlerError path err)) s, None)
                | (s, None) => (s, None)
                end
          end
    end.

(** What a scan leaves: the poller, the state of the handler, the
    calls of the handler and the directories visited in this scan,
    and the error [Scan] returns. *)
Record ScanResult : Type := mkScanResult {
  rPoller : Poller;
  rHandler : H;
  rCalls : list (string * FileInfo);
  rVisited : gset string;
  rErr : option error
}.

(** [Scan], at time [now], of the file system [fs] found at the root. *)
Definition Scan (now : time.Time) (fs : option Node) (p : Poller)
    (h : H) : ScanResult :=
  let lastScan := lastScan p in
  let p := printf (LogStartingScan (root p)) (setLastScan now p) in
  let '(s, err) :=
    WalkDir (scanFn lastScan) (root p) fs
            (mkScanState p 0 0 0 ∅ h []) in
  let p := cleanupDirModTime (visitedDirs s) (pol s) in
  let p := printf (LogScanCompleted (fileCount s) (dirCount s)
                                     (skippedDirs s)) p in
  mkScanResult p (hstate s) (calls s) (visitedDirs s) err.

(** What the [select] of [Run] receives: a tick of the ticker, with
    the time and the file system the scan then finds, or the end of
    the context with [ctx.Err()]. *)
Inductive Msg : Type :=
| Tick (now : time.Time) (fs : option Node)
| Done (err : error).

(** A run: still in the loop, or returned with a value. *)
Inductive Outcome : Type :=
| Running
| Returned (err : option error).

Definition logScanError (mk : error -> LogLine) (r : ScanResult) : Poller :=
  match rErr r with
  | Some err => printf (mk err) (rPoller r)
  | None => rPoller r
  end.

Fixpoint runLoop (msgs : list Msg) (p : Poller) (h : H)
    (cs : list (string * FileInfo))
    : Poller * H * list (string * FileInfo) * Outcome :=
  match msgs with
  | [] => (p, h, cs, Running)
  | Done err :: _ => (p, h, cs, Returned (Some err))
  | Tick now fs :: msgs' =>
      let r := Scan now fs p h in
      runLoop msgs' (logScanError LogScanError r) (rHandler r)
              (cs ++ rCalls r)
  end.

(** [Run]: the initial scan at [now] of [fs], then the loop. *)
Definition Run (now : time.Time) (fs : option Node) (msgs : list Msg)
    (p : Poller) (h : H)
    : Poller * H * list (string * FileInfo) * Outcome :=
  let r := Scan now fs p h in
  runLoop msgs (logScanError LogInitialScanError r) (rHandler r) (rCalls r).

End Scan.

End poller.

(** ** github.com/fsnotify/fsnotify: the operations of an event *)

Module fsnotify.

(** [Op] is a bit mask (uint32). *)
Definition Op := Z.
Definition Create : Op := 1.
Definition Write : Op := 2.
Definition Remove : Op := 4.
Definition Rename : Op := 8.
Definition Chmod : Op := 16.

Record Event : Type := mkEvent {
  Name : string;
  EOp : Op
}.

End fsnotify.

(** ** internal/watcher: the event watcher *)

Module watcher.
Import filepath.

Definition defaultDebounce : time.Duration := 800 * time.Millisecond.
Definition defaultFlushInterval : time.Duration := 250 * time.Millisecond.

Record Event : Type := mkEvent {
  Path : string;
  Op : fsnotify.Op;
  Time : time.Time
}.

#[global] Instance Event_eq_dec : EqDecision Event.
Proof. solve_decision. Defined.

Definition Handler (H : Type) : Type := Event -> H -> H * option error.

Inductive LogLine : Type :=
| LogCannotAccess (path : string) (err : error)
| LogFailedToWatch (path : string) (err : error)
| LogWatchError (err : error)
| LogFailedToWatchNew (path : string) (err : error)
| LogHandlerError (path : string) (err : error).

(** The watcher.  [watches] is the watch list of the fsnotify watcher.
    [probes] lists the paths for which [handleEvent] has started the
    goroutine that looks for a new directory. *)
Record Watcher : Type := mkWatcher {
  debounce : time.Duration;
  flush : time.Duration;
  pending : gmap string Event;
  watches : gset string;
  logger : list LogLine;
  probes : list string
}.

Record Config : Type := mkConfig {
  Debounce : time.Duration;
  FlushInterval : time.Duration;
  Logger : list LogLine
}.

Definition NewWatcher (cfg : Config) : Watcher :=
  {| debounce := if Debounce cfg <=? 0 then defaultDebounce else Debounce cfg;
     flush := if FlushInterval cfg <=? 0 then defaultFlushInterval
              else FlushInterval cfg;
     pending := ∅;
     watches := ∅;
     logger := Logger cfg;
     probes := [] |}.

Definition printf (l : LogLine) (w : Watcher) : Watcher :=
  {| debounce := debounce w; flush := flush w; pending := pending w;
     watches := watches w; logger := logger w ++ [l]; probes := probes w |}.

Definition setPending (m : gmap string Event) (w : Watcher) : Watcher :=
  {| debounce := debounce w; flush := flush w; pending := m;
     watches := watches w; logger := logger w; probes := probes w |}.

Definition spawnProbe (path : string) (w : Watcher) : Watcher :=
  {| debounce := debounce w; flush := flush w; pending := pending w;
     watches := watches w; logger := logger w;
     probes := probes w ++ [path] |}.

Section Watch.
(** [addErr path]: the error with which the fsnotify watcher refuses
    to watch [path], if it does. *)
Context (addErr : string -> option error).

Definition Add (path : string) (w : Watcher) : Watcher * option error :=
  match addErr path with
  | Some err => (w, Some err)
  | None =>
      ({| debounce := debounce w; flush := flush w; pending := pending w;
          watches := {[path]} ∪ watches w; logger := logger w;
          probes := probes w |}, None)
  end.

(** The names neither [AddRecursive] nor the probe of a new directory
    watch. *)
Definition skipName (name : string) : bool :=
  String.eqb name "node_modules" || String.eqb name ".git"
  || String.eqb name ".dropbox.cache" || String.eqb name ".svn"
  || String.eqb name ".hg"
  || (String.prefix "." name && negb (String.eqb name ".")).

(** The function [AddRecursive] passes to [filepath.Walk]. *)
Definition addFn : WalkFunc Watcher :=
  fun path a w =>
    match a with
    | LstatFailed err => (printf (LogCannotAccess path err) w, None)
    | Info _ (Some err) => (printf (LogCannotAccess path err) w, None)
    | Info info None =>
        if negb (fiIsDir info) then (w, None)
        else if skipName (fiName info) then (w, Some SkipDir)
        else
          match Add path w with
          | (w, Some err) => (printf (LogFailedToWatch path err) w, None)
          | (w, None) => (w, None)
          end
    end.

Definition AddRecursive (root : string) (fs : option Node) (w : Watcher)
    : Watcher * option error :=
  Walk addFn root fs w.

(** The body of the goroutine of [handleEvent]; [stat] is the answer
    of [os.Stat path]: [IsDir()], or nothing on error; the name is
    [filepath.Base path]. *)
Definition probeNewDir (path name : string) (stat : option bool)
    (w : Watcher) : Watcher :=
  match stat with
  | None => w
  | Some false => w
  | Some true =>
      if skipName name then w
      else
        match Add path w with
        | (w, Some err) => printf (LogFailedToWatchNew path err) w
        | (w, None) => w
        end
  end.

End Watch.

(** [Create|Write|Rename] *)
Definition relevantOps : fsnotify.Op :=
  Z.lor (Z.lor fsnotify.Create fsnotify.Write) fsnotify.Rename.

(** [handleEvent], at time [now]. *)
Definition handleEvent (now : time.Time) (event : fsnotify.Event)
    (w : Watcher) : Watcher :=
  if Z.land (fsnotify.EOp event) relevantOps =? 0 then w
  else
    let w :=
      setPending (<[fsnotify.Name event :=
                      {| Path := fsnotify.Name event;
                         Op := fsnotify.EOp event;
                         Time := now |}]> (pending w)) w in
    if negb (Z.land (fsnotify.EOp event) fsnotify.Create =? 0)
    then spawnProbe (fsnotify.Name event) w
    else w.

(** The state of a running watcher: the watcher, the state of the
    handler, and the list of the calls of the handler, each with the
    time of the flush that made it (a record of the run). *)
Record State (H : Type) : Type := mkState {
  wat : Watcher;
  hstate : H;
  handled : list (Event * time.Time)
}.
Arguments mkState {H}.
Arguments wat {H}.
Arguments hstate {H}.
Arguments handled {H}.

Section Run.
Context {H : Type} (handler : Handler H).

(** An entry is due at [now] when its age has reached the debounce. *)
Definition due (w : Watcher) (now : time.Time) (kv : string * Event) : Prop :=
  debounce w <= time.Sub now (Time kv.2).

#[global] Instance due_dec w now kv : Decision (due w now kv).
Proof. unfold due. apply _. Defined.

(** The second loop of [flushPending]: the handler on each event. *)
Definition process (now : time.Time) (st : State H) (event : Event)
    : State H :=
  let '(h', r) := handler event (hstate st) in
  mkState (match r with
           | Some err => printf (LogHandlerError (Path event) err) (wat st)
           | None => wat st
           end)
          h' (handled st ++ [(event, now)]).

(** [flushPending], at time [now]: the due entries leave the buffer,
    in the order in which the map yields them, and are handled. *)
Definition flushPending (now : time.Time) (st : State H) : State H :=
  let w := wat st in
  let toProcess := (map_to_list (filter (due w now) (pending w))).*2 in
  let w' := setPending (filter (fun kv => ¬ due w now kv) (pending w)) w in
  foldl (process now) (mkState w' (hstate st) (handled st)) toProcess.

(** What the [select] of [Run] receives and goes on with. *)
Inductive Msg : Type :=
| GotEvent (now : time.Time) (event : fsnotify.Event)
| GotError (err : error)
| FlushTick (now : time.Time).

(** What the [select] of [Run] receives. *)
Inductive Input : Type :=
| Live (m : Msg)
| Done (err : error)         (* ctx.Done(), with ctx.Err() *)
| EventsClosed               (* w.watcher.Events is closed *)
| ErrorsClosed.              (* w.watcher.Errors is closed *)

Inductive Outcome : Type :=
| Running
| Returned (err : option error).

(** One turn of the loop that does not leave it. *)
Definition step (st : State H) (m : Msg) : State H :=
  match m with
  | GotEvent now event =>
      mkState (handleEvent now event (wat st)) (hstate st) (handled st)
  | GotError err =>
      mkState (printf (LogWatchError err) (wat st)) (hstate st) (handled st)
  | FlushTick now => flushPending now st
  end.

Fixpoint Run (ins : list Input) (st : State H) : State H * Outcome :=
  match ins with
  | [] => (st, Running)
  | Live m :: ins' => Run ins' (step st m)
  | Done err :: _ => (st, Returned (Some err))
  | EventsClosed :: _ => (st, Returned None)
  | ErrorsClosed :: _ => (st, Returned None)
  end.

End Run.

End watcher.

(** ** internal/xattr: the attribute that marks a path as ignored

    [Setxattr], [Getxattr] and [Removexattr] are system calls; what
    they do is embedded here as a store of attributes: a call on a path
    fails with the error the system has for the path, reading or
    removing an attribute that is not there fails with the error of the
    platform for a missing attribute, and otherwise the call reads,
    writes or removes the value. *)

Module xattr.

(** [runtime.GOOS], which also selects [xattr_linux.go] or
    [xattr_darwin.go]. *)
Inductive GOOS : Type := Linux | Darwin.

Definition attrMacOS : string := "com.apple.fileprovider.ignore#P".
Definition attrLinux : string := "com.dropbox.ignored".
Definition attrValue : string := "1".

Definition ENODATA : error := ErrMsg "ENODATA".
Definition ENOATTR : error := ErrMsg "ENOATTR".

(** The error of the platform for an attribute that is not there. *)
Definition noAttr (goos : GOOS) : error :=
  match goos with Linux => ENODATA | Darwin => ENOATTR end.

(** [isNoAttrError], of the file the build selects. *)
Definition isNoAttrError (goos : GOOS) (err : option error) : bool :=
  match goos with
  | Linux => bool_decide (err = Some ENODATA)
  | Darwin => bool_decide (err = Some ENOATTR)
  end.

Definition getAttrName (goos : GOOS) : string :=
  match goos with Darwin => attrMacOS | Linux => attrLinux end.

(** The attributes of the files: the value of each attribute of each
    path, and the error with which the system refuses a call on a path,
    if it does. *)
Record Store : Type := mkStore {
  attrs : gmap (string * string) string;
  fault : string -> option error
}.

Definition Setxattr (path name value : string) (st : Store)
    : Store * option error :=
  match fault st path with
  | Some err => (st, Some err)
  | None => ({| attrs := <[(path, name) := value]> (attrs st);
                fault := fault st |}, None)
  end.

(** [Getxattr path name nil]: the size of the value. *)
Definition Getxattr (goos : GOOS) (path name : string) (st : Store)
    : Z * option error :=
  match fault st path with
  | Some err => (-1, Some err)
  | None =>
      match attrs st !! (path, name) with
      | Some value => (Z.of_nat (String.length value), None)
      | None => (-1, Some (noAttr goos))
      end
  end.

Definition Removexattr (goos : GOOS) (path name : string) (st : Store)
    : Store * option error :=
  match fault st path with
  | Some err => (st, Some err)
  | None =>
      match attrs st !! (path, name) with
      | Some _ => ({| attrs := delete (path, name) (attrs st);
                      fault := fault st |}, None)
      | None => (st, Some (noAttr goos))
      end
  end.

Definition SetIgnored (goos : GOOS) (path : string) (st : Store)
    : Store * option error :=
  Setxattr path (getAttrName goos) attrValue st.

(** The end of [IsIgnored], on what [Getxattr] returned. *)
Definition ignoredOf (goos : GOOS) (r : Z * option error) : bool * option error :=
  if isNoAttrError goos r.2 then (false, None)
  else ((0 <=? r.1) && bool_decide (r.2 = None), r.2).

Definition IsIgnored (goos : GOOS) (path : string) (st : Store)
    : bool * option error :=
  ignoredOf goos (Getxattr goos path (getAttrName goos) st).

Definition RemoveIgnored (goos : GOOS) (path : string) (st : Store)
    : Store * option error :=
  match Removexattr goos path (getAttrName goos) st with
  | (st', err) => if isNoAttrError goos err then (st', None) else (st', err)
  end.

End xattr.

(** ** package main: the handler of the daemon *)

Module daemon.

Inductive LogLine : Type :=
| LogMatcherError (path : string) (err : error)
| LogCheckFailed (path : string) (err : error)
| LogDryRun (path : string)
| LogSetFailed (path : string) (err : error)
| LogSet (path : string).

(** What the handler works on: the cache of processed files, the
    attributes of the files, its logger. *)
Record World : Type := mkWorld {
  cache : state.Cache;
  files : xattr.Store;
  logger : list LogLine
}.

Definition setCache (c : state.Cache) (w : World) : World :=
  mkWorld c (files w) (logger w).

Definition setFiles (f : xattr.Store) (w : World) : World :=
  mkWorld (cache w) f (logger w).

Definition printf (l : LogLine) (w : World) : World :=
  mkWorld (cache w) (files w) (logger w ++ [l]).

Section Handler.
(** [shouldIgnore] is the answer of [m.ShouldIgnore], [dryRun] the flag
    of the command line; [nowHas] and [nowAdd] are the clock as
    [cache.Has] and [cache.Add] read it during the call. *)
Context (goos : xattr.GOOS).
Context (shouldIgnore : string -> bool * option error).
Context (dryRun : bool).

(** The end of the handler once the path is marked, or would be:
    [cache.Add], and [ErrSkipDir] for a directory. *)
Definition remember (nowAdd : time.Time) (path : string) (info : FileInfo)
    (w : World) : World * option error :=
  (setCache (state.Add nowAdd path info (cache w)) w,
   if fiIsDir info then Some ErrSkipDir else None).

(** The function [createHandler] returns. *)
Definition createHandler (nowHas nowAdd : time.Time) : poller.Handler World :=
  fun path info w =>
    match state.Has nowHas path info (cache w) with
    | (true, c) => (setCache c w, None)
    | (false, c) =>
        let w := setCache c w in
        match shouldIgnore path with
        | (_, Some err) => (printf (LogMatcherError path err) w, None)
        | (false, None) => (w, None)
        | (true, None) =>
            match xattr.IsIgnored goos path (files w) with
            | (_, Some err) => (printf (LogCheckFailed path err) w, None)
            | (true, None) => remember nowAdd path info w
            | (false, None) =>
                if dryRun then
                  remember nowAdd path info (printf (LogDryRun path) w)
                else
                  match xattr.SetIgnored goos path (files w) with
                  | (_, Some err) =>
                      (printf (LogSetFailed path err) w, None)
                  | (f, None) =>
                      remember nowAdd path info
                        (printf (LogSet path) (setFiles f w))
                  end
            end
        end
    end.

(** The handler [serve] gives to the watcher; [stat] is the answer of
    [os.Stat]. *)
Definition watcherHandler (stat : string -> option FileInfo)
    (nowHas nowAdd : time.Time) : watcher.Handler World :=
  fun event w =>
    match stat (watcher.Path event) with
    | None => (w, None)
    | Some info => createHandler nowHas nowAdd (watcher.Path event) info w
    end.

End Handler.

End daemon.

(** ** Induction on the nodes of a file tree *)

Section NodeInduction.
Import filepath.
Context (P : Node -> Prop).
Context (HFile : forall name meta, P (File name meta)).
Context (HDir : forall name meta children rderr,
            Forall P children -> P (Dir name meta children rderr)).

Fixpoint Node_forall_ind (n : Node) : P n :=
  match n with
  | File name meta => HFile name meta
  | Dir name meta children rderr =>
      HDir name meta children rderr
        ((fix go (cs : list Node) : Forall P cs :=
            match cs with
            | [] => List.Forall_nil P
            | c :: cs' => @List.Forall_cons _ P c cs' (Node_forall_ind c) (go cs')
            end) children)
  end.
End NodeInduction.

(** * Notions for the properties *)

(** ** The poller *)

Section PollerNotions.
Import filepath poller.

(** The [FileInfo] of a directory and of a file with metadata. *)
Definition dirInfo (name : string) (meta : Meta) : FileInfo :=
mkFileInfo name true (mModTime meta) (mIno meta).


(** [visitsOnly handler path info s out]: from the state [s], the walk
  that ends in [out] has visited the directory at [path] and nothing
  else: one call of the handler, one directory counted, no file counted,
  the remembered modification times untouched, and no error. *)
Definition visitsOnly {H : Type} (handler : Handler H) (path : string)
  (info : FileInfo) (s : ScanState H) (out : ScanState H * option error)
  : Prop :=
out.2 = None
/\ calls out.1 = calls s ++ [(path, info)]
/\ hstate out.1 = (handler path info (hstate s)).1
/\ fileCount out.1 = fileCount s
/\ dirCount out.1 = dirCount s + 1
/\ visitedDirs out.1 = {[path]} ∪ visitedDirs s
/\ dirModTime (pol out.1) = dirModTime (pol s).

(** The paths of the directories of a file tree whose root is at [path]. *)
Fixpoint dirPaths (path : string) (n : Node) : gset string :=
match n with
| File _ _ => ∅
| Dir _ _ children _ =>
    {[path]} ∪
    (fix go (cs : list Node) : gset string :=
       match cs with
       | [] => ∅
       | c :: cs' => dirPaths (Join path (nodeName c)) c ∪ go cs'
       end) children
end.

Fixpoint dirPathsIn (path : string) (cs : list Node) : gset string :=
match cs with
| [] => ∅
| c :: cs' => dirPaths (Join path (nodeName c)) c ∪ dirPathsIn path cs'
end.

Definition fsDirPaths (root : string) (fs : option Node) : gset string :=
match fs with
| Some n => dirPaths root n
| None => ∅
end.

(** The names both the poller and the watcher skip from the start. *)
Definition staticSkipNames : list string :=
[".git"; ".dropbox.cache"; "node_modules"; ".svn"; ".hg"].

(** One scan of the loop of [Run], on the poller, the state of the
  handler and the calls made so far. *)
Definition scanOnce {H : Type} (handler : Handler H)
  (st : Poller * H * list (string * FileInfo))
  (t : time.Time * option Node) : Poller * H * list (string * FileInfo) :=
let r := Scan handler t.1 t.2 st.1.1 st.1.2 in
(rPoller r, rHandler r, st.2 ++ rCalls r).

Definition tick (t : time.Time * option Node) : Msg := Tick t.1 t.2.

End PollerNotions.

(** ** The watcher *)

Section WatcherNotions.
Import watcher.
Context {H : Type}.








(** The state after the messages [ms]. *)
Definition after (handler : Handler H) (ms : list Msg) (st : State H) : State H :=
foldl (step handler) st ms.





End WatcherNotions.

(** ** File trees and walks *)

Section TreeNotions.
Import filepath.

(** The number of the entries of a file tree. *)
Fixpoint nodeCount (n : Node) : Z :=
match n with
| File _ _ => 1
| Dir _ _ children _ =>
    1 + (fix go (cs : list Node) : Z :=
           match cs with
           | [] => 0
           | c :: cs' => nodeCount c + go cs'
           end) children
end.

Fixpoint nodeCountIn (cs : list Node) : Z :=
match cs with
| [] => 0
| c :: cs' => nodeCount c + nodeCountIn cs'
end.

Definition fsNodeCount (fs : option Node) : Z :=
match fs with
| Some n => nodeCount n
| None => 0
end.

(** The loop of [walk] over the entries of a directory. *)
Fixpoint walks {S : Type} (fn : WalkFunc S) (path : string)
  (cs : list Node) (s : S) : S * option error :=
match cs with
| [] => (s, None)
| c :: cs' =>
    match lstat c with
    | None =>
        match fn (Join path (nodeName c)) (LstatFailed lstatError) s with
        | (s', Some err) =>
            if decide (err = SkipDir) then walks fn path cs' s'
            else (s', Some err)
        | (s', None) => walks fn path cs' s'
        end
    | Some fi =>
        match walk fn (Join path (nodeName c)) c fi s with
        | (s', Some err) =>
            if negb (fiIsDir fi) || negb (bool_decide (err = SkipDir))
            then (s', Some err)
            else walks fn path cs' s'
        | (s', None) => walks fn path cs' s'
        end
    end
end.

(** The directories of the tree at [path] that a recursive walk can
  watch: those with metadata that can be listed, reached through such
  directories only, whose name the watcher does not skip and which the
  fsnotify watcher accepts.  Under a directory that the fsnotify
  watcher refuses the walk goes on. *)
Fixpoint watchable (addErr : string -> option error) (path : string)
  (n : Node) : gset string :=
match n with
| File _ _ => ∅
| Dir name meta children rderr =>
    match meta, rderr with
    | Some _, None =>
        if watcher.skipName name then ∅
        else
          (match addErr path with
           | None => {[path]}
           | Some _ => ∅
           end)
          ∪ (fix go (cs : list Node) : gset string :=
               match cs with
               | [] => ∅
               | c :: cs' =>
                   watchable addErr (Join path (nodeName c)) c ∪ go cs'
               end) children
    | _, _ => ∅
    end
end.

Fixpoint watchableIn (addErr : string -> option error) (path : string)
  (cs : list Node) : gset string :=
match cs with
| [] => ∅
| c :: cs' =>
    watchable addErr (Join path (nodeName c)) c ∪ watchableIn addErr path cs'
end.

Definition fsWatchable (addErr : string -> option error) (root : string)
  (fs : option Node) : gset string :=
match fs with
| Some n => watchable addErr root n
| None => ∅
end.

End TreeNotions.

(** ** The watcher: counting *)

Section WatcherCounting.
Import watcher.

(** The notifications among the messages of a kind that [handleEvent]
  takes. *)
Definition taken (m : Msg) : bool :=
match m with
| GotEvent _ event => negb (Z.land (fsnotify.EOp event) relevantOps =? 0)
| _ => false
end.

Definition notifications (ms : list Msg) : nat := length (List.filter taken ms).


End WatcherCounting.

(** ** The counters of a scan *)

Section ScanNotions.
Import poller.

(** What the counters of a scan keep: the skipped directories are among
  the directories counted, which are at least the directory paths
  visited; the calls of the handler are at most the entries counted. *)
Definition counted {H : Type} (s : ScanState H) : Prop :=
0 <= fileCount s /\ 0 <= skippedDirs s <= dirCount s
/\ Z.of_nat (size (visitedDirs s)) <= dirCount s
/\ Z.of_nat (length (calls s)) <= fileCount s + dirCount s.

End ScanNotions.

(** ** The daemon *)

Section DaemonNotions.

(** A handler that is, at each call, the function [createHandler]
  returns, with the clock as the call reads it. *)
Definition handlerOf (goos : xattr.GOOS)
  (shouldIgnore : string -> bool * option error) (dryRun : bool)
  (handler : poller.Handler daemon.World) : Prop :=
forall path info w, exists nowHas nowAdd,
  handler path info w
  = daemon.createHandler goos shouldIgnore dryRun nowHas nowAdd path info w.

(** The same for the handler [serve] gives to the watcher, with the
  answers of [os.Stat] during the call. *)
Definition watcherHandlerOf (goos : xattr.GOOS)
  (shouldIgnore : string -> bool * option error) (dryRun : bool)
  (handler : watcher.Handler daemon.World) : Prop :=
forall event w, exists stat nowHas nowAdd,
  handler event w
  = daemon.watcherHandler goos shouldIgnore dryRun stat nowHas nowAdd event w.


End DaemonNotions.

(** * Values of the examples *)

Section PollerValues.
Import filepath poller.

Definition cacheInfo : FileInfo := mkFileInfo "a.log" false 500 (Some 42).

Definition demoMeta : Meta := mkMeta 100 (Some 7).

(** A handler that accepts everything. *)
Definition handleAll : Handler unit := fun _ _ u => (u, None).

(** The handler of [TestPollerIgnoredDirectorySkip]. *)
Definition skipIgnored : Handler unit :=
fun path info u =>
  (u, if String.eqb path "/r/ignored" && fiIsDir info
      then Some ErrSkipDir else None).

Definition demoPoller : Poller := NewPoller (mkConfig "/r" 0 [] []).


Definition demoScanState (p : Poller) : ScanState unit :=
mkScanState p 0 0 0 ∅ tt [].

(** The tree of [TestPollerDirectoryModTimeCache]. *)
Definition demoTree : Node :=
Dir "r" (Some demoMeta)
    [Dir "subdir" (Some demoMeta) [File "file.txt" (Some demoMeta)] None]
    None.

Definition scan1 : ScanResult := Scan handleAll 1000 (Some demoTree) demoPoller tt.

Definition scan2 : ScanResult :=
Scan handleAll 2000 (Some demoTree) (rPoller scan1) tt.

Definition scan3 : ScanResult :=
Scan handleAll 3000 (Some demoTree) (rPoller scan2) tt.

Definition ignoredTree : Node :=
Dir "ignored" (Some demoMeta)
    [File "file1.txt" (Some demoMeta);
     Dir "subdir" (Some demoMeta) [File "file3.txt" (Some demoMeta)] None]
    None.



End PollerValues.

Section WatcherValues.
Import watcher.

Definition demoWatcher : Watcher := NewWatcher (mkConfig 0 0 []).


Definition ms (n : Z) : time.Time := n * time.Millisecond.


Definition acceptEvents : Handler unit := fun _ u => (u, None).

(** The watcher of [TestWatcherEventBatching]: debounce 100ms, flush
  interval 50ms. *)
Definition testWatcher : State unit :=
mkState (NewWatcher (mkConfig (ms 100) (ms 50) [])) tt [].





End WatcherValues.

Section DaemonValues.
Import filepath.

(** A poller that has made a scan and remembers its root. *)
Definition rememberingPoller : poller.Poller :=
poller.updateDirModTime "/r" (mModTime demoMeta)
  (poller.setLastScan 1000 demoPoller).

(** A root on which [Lstat] fails. *)
Definition lostTree : Node := Dir "r" None [File "a.txt" (Some demoMeta)] None.

(** A system on which no call fails and no attribute is set. *)
Definition emptyStore : xattr.Store := xattr.mkStore ∅ (fun _ => None).

(** A matcher that ignores [/r/build] and nothing else. *)
Definition ignoreBuild : string -> bool * option error :=
fun path => (String.eqb path "/r/build", None).

Definition buildInfo : FileInfo := dirInfo "build" demoMeta.

Definition statBuild : string -> option FileInfo :=
fun path => if String.eqb path "/r/build" then Some buildInfo else None.

Definition buildTree : Node :=
Dir "r" (Some demoMeta)
    [Dir "build" (Some demoMeta) [File "out.o" (Some demoMeta)] None;
     File "main.c" (Some demoMeta)]
    None.

(** The world of the handler as [serve] and [scan] make it: an empty
  cache with a TTL of one minute. *)
Definition demoWorld : daemon.World :=
daemon.mkWorld (state.NewCache time.Minute) emptyStore [].

Definition buildCreated : watcher.Event :=
watcher.mkEvent "/r/build" fsnotify.Create (ms 0).

Definition daemonWatcher : watcher.State daemon.World :=
watcher.mkState demoWatcher demoWorld [].


End DaemonValues.

(** * Properties *)

(** ** The state cache *)

Section StateCache.
Import state.

Lemma Has_Add_lookup now path info c :
  entries (Add now path info c) !! path
  = Some {| Inode := getInode info; Mtime := fiModTime info; Added := now |}.
Proof. unfold Add; simpl. apply lookup_insert_eq. Qed.

Lemma Has_expired now path info c e :
  entries c !! path = Some e ->
  ttl c < time.Since now (Added e) ->
  Has now path info c = (false, Remove path c).
Proof.
  intros Hl Hexp. unfold Has. rewrite Hl.
  destruct (Z.ltb_spec (ttl c) (time.Since now (Added e))); [reflexivity | lia].
Qed.

Lemma Has_fresh now path info c e :
  entries c !! path = Some e ->
  time.Since now (Added e) <= ttl c ->
  Has now path info c
  = ((Inode e =? getInode info) && time.Equal (Mtime e) (fiModTime info), c).
Proof.
  intros Hl Hage. unfold Has. rewrite Hl.
  destruct (Z.ltb_spec (ttl c) (time.Since now (Added e))); [lia | reflexivity].
Qed.

(** C10. Right after [Add now1 path info], [Has now2 path info2] answers
    [true] exactly when the age of the entry, [time.Since] its [Added]
    time, is at most the TTL and [info2] has the inode and the
    modification time of [info]; the cache is then unchanged.  On any
    entry whose age exceeds the TTL, [Has] answers [false] and leaves the
    cache without an entry for the path. *)
Theorem cache_has_after_add now1 now2 path info info2 c :
  let c1 := Add now1 path info c in
  ((Has now2 path info2 c1).1 = true <->
     time.Since now2 now1 <= ttl c
     /\ getInode info2 = getInode info
     /\ fiModTime info2 = fiModTime info)
  /\ (time.Since now2 now1 <= ttl c -> (Has now2 path info2 c1).2 = c1)
  /\ (forall c' e,
        entries c' !! path = Some e ->
        ttl c' < time.Since now2 (Added e) ->
        (Has now2 path info2 c').1 = false
        /\ entries (Has now2 path info2 c').2 !! path = None
        /\ forall q, q <> path ->
             entries (Has now2 path info2 c').2 !! q = entries c' !! q).
Proof.
  intros c1. pose proof (Has_Add_lookup now1 path info c) as Hl.
  fold c1 in Hl. split; [|split].
  - destruct (Z.le_gt_cases (time.Since now2 now1) (ttl c)) as [Hage|Hexp].
    + rewrite (Has_fresh _ _ _ _ _ Hl) by exact Hage. simpl.
      unfold time.Equal. rewrite andb_true_iff, !Z.eqb_eq. intuition.
    + rewrite (Has_expired _ _ _ _ _ Hl) by (simpl; exact Hexp). simpl.
      split; [discriminate | lia].
  - intros Hage. rewrite (Has_fresh _ _ _ _ _ Hl) by exact Hage. reflexivity.
  - intros c' e He Hexp. rewrite (Has_expired _ _ _ _ _ He Hexp). simpl.
    split; [reflexivity | split].
    + apply lookup_delete_eq.
    + intros q Hq. apply lookup_delete_ne. congruence.
Qed.

Lemma cache_has_after_add_witness :
  (Has 1060 "/r/a.log" cacheInfo
       (Add 1000 "/r/a.log" cacheInfo (NewCache 60))).1 = true
  /\ (Has 1061 "/r/a.log" cacheInfo
          (Add 1000 "/r/a.log" cacheInfo (NewCache 60))).1 = false
  /\ entries (Has 1061 "/r/a.log" cacheInfo
               (Add 1000 "/r/a.log" cacheInfo (NewCache 60))).2
       !! "/r/a.log" = None.
Proof.
  pose proof (cache_has_after_add 1000 1060 "/r/a.log" cacheInfo
                cacheInfo (NewCache 60)) as [H1 _].
  pose proof (cache_has_after_add 1000 1061 "/r/a.log" cacheInfo
                cacheInfo (NewCache 60)) as (_ & _ & H3).
  split.
  - apply H1. vm_compute. repeat split; discriminate.
  - specialize (H3 (Add 1000 "/r/a.log" cacheInfo (NewCache 60))
                   {| Inode := 42; Mtime := 500; Added := 1000 |}).
    destruct H3 as (Hf & Hn & _).
    + apply Has_Add_lookup.
    + vm_compute. reflexivity.
    + split; assumption.
Defined.

End StateCache.

(** ** The walk of [filepath.WalkDir] *)

Section WalkDirFacts.
Import filepath.
Context {S : Type} (fn : WalkDirFunc S).

Lemma walkDir_File path name meta s :
  walkDir fn path (File name meta) s
  = fn path (Visit (dirEntry (File name meta))) s.
Proof. reflexivity. Qed.

Lemma walkDir_Dir path name meta children rderr s :
  walkDir fn path (Dir name meta children rderr) s
  = match fn path (Visit (dirEntry (Dir name meta children rderr))) s with
    | (s1, Some err) =>
        (s1, if decide (err = SkipDir) then None else Some err)
    | (s1, None) =>
        match (match rderr with
               | Some e =>
                   fn path
                      (Failed (Some (dirEntry (Dir name meta children rderr))) e)
                      s1
               | None => (s1, None)
               end) with
        | (s2, Some err) =>
            (s2, if decide (err = SkipDir) then None else Some err)
        | (s2, None) => walkDirs fn path children s2
        end
    end.
Proof.
  assert (Hloop : forall cs s2,
    (fix loop (cs : list Node) (s : S) : S * option error :=
       match cs with
       | [] => (s, None)
       | c :: cs' =>
           match walkDir fn (Join path (nodeName c)) c s with
           | (s', Some err) =>
               if decide (err = SkipDir) then (s', None) else (s', Some err)
           | (s', None) => loop cs' s'
           end
       end) cs s2 = walkDirs fn path cs s2).
  { induction cs as [|c cs IHcs]; intros s2; simpl; [reflexivity|].
    destruct (walkDir fn (Join path (nodeName c)) c s2) as [s' [e|]]; auto. }
  simpl.
  destruct (fn path (Visit (dirEntry (Dir name meta children rderr))) s)
    as [s1 [e|]]; [reflexivity|].
  destruct (match rderr with Some e => _ | None => _ end) as [s2 [e|]];
    [reflexivity|].
  apply Hloop.
Qed.

(** A directory on which the callback answers [SkipDir]: the walk of
    its subtree is this one call. *)
Lemma walkDir_Dir_skip path name meta children rderr s s1 :
  fn path (Visit (dirEntry (Dir name meta children rderr))) s
    = (s1, Some SkipDir) ->
  walkDir fn path (Dir name meta children rderr) s = (s1, None).
Proof. intros Hfn. rewrite walkDir_Dir, Hfn. reflexivity. Qed.

Lemma WalkDir_readable root n m s :
  nodeMeta n = Some m ->
  (WalkDir fn root (Some n) s).1 = (walkDir fn root n s).1.
Proof.
  intros Hm. unfold WalkDir. rewrite Hm.
  destruct (walkDir fn root n s) as [s' r]. reflexivity.
Qed.

(** An invariant of the state that the callback keeps at every path of a
    set closed under [Join] is kept by the walk from a path of the set. *)
Section InvariantOn.
Context (Q : string -> Prop) (I : S -> Prop).
Context (HQ : forall path name, Q path -> Q (Join path name)).
Context (Hfn : forall path a s, Q path -> I s -> I (fn path a s).1).

Lemma walkDir_invariant_on n :
  forall path s, Q path -> I s -> I (walkDir fn path n s).1.
Proof.
  induction n as [name meta | name meta children rderr IH]
    using Node_forall_ind; intros path s Hq Hs.
  - rewrite walkDir_File. auto.
  - rewrite walkDir_Dir.
    pose proof (Hfn path (Visit (dirEntry (Dir name meta children rderr))) s Hq Hs)
      as H1.
    destruct (fn path (Visit (dirEntry (Dir name meta children rderr))) s)
      as [s1 [err|]]; simpl in H1; [exact H1|].
    assert (H2 : I (match rderr with
                    | Some e =>
                        fn path
                           (Failed (Some (dirEntry (Dir name meta children rderr))) e)
                           s1
                    | None => (s1, None)
                    end).1).
    { destruct rderr; [apply Hfn|]; assumption. }
    destruct (match rderr with Some e => _ | None => _ end)
      as [s2 [err|]]; simpl in H2; [exact H2|].
    clear H1 Hs s s1. revert s2 H2.
    induction IH as [|c cs Hc _ IHcs]; intros s Hs; simpl; [exact Hs|].
    specialize (Hc (Join path (nodeName c)) s (HQ _ _ Hq) Hs).
    destruct (walkDir fn (Join path (nodeName c)) c s) as [s' [err|]];
      simpl in Hc.
    + destruct (decide (err = SkipDir)); exact Hc.
    + apply IHcs, Hc.
Qed.

Lemma walkDirs_invariant_on cs :
  forall path s,
    (forall name, Q (Join path name)) -> I s -> I (walkDirs fn path cs s).1.
Proof.
  induction cs as [|c cs IHcs]; intros path s Hq Hs; simpl; [exact Hs|].
  pose proof (walkDir_invariant_on c (Join path (nodeName c)) s (Hq _) Hs) as Hc.
  destruct (walkDir fn (Join path (nodeName c)) c s) as [s' [err|]];
    simpl in Hc.
  - destruct (decide (err = SkipDir)); exact Hc.
  - apply IHcs; [exact Hq | exact Hc].
Qed.
End InvariantOn.

(** An invariant of the state that every call of the callback keeps is
    kept by the walk. *)
Section Invariant.
Context (I : S -> Prop).
Context (Hfn : forall path a s, I s -> I (fn path a s).1).

Lemma walkDir_invariant n : forall path s, I s -> I (walkDir fn path n s).1.
Proof.
  intros path s.
  apply (walkDir_invariant_on (fun _ => True) I); auto.
Qed.

Lemma walkDirs_invariant cs : forall path s, I s -> I (walkDirs fn path cs s).1.
Proof.
  intros path s.
  apply (walkDirs_invariant_on (fun _ => True) I); auto.
Qed.

(** It is enough that the invariant holds after the first call on a
    directory. *)
Lemma walkDir_Dir_after path name meta children rderr s :
  I (fn path (Visit (dirEntry (Dir name meta children rderr))) s).1 ->
  I (walkDir fn path (Dir name meta children rderr) s).1.
Proof.
  intros H1. rewrite walkDir_Dir.
  destruct (fn path (Visit (dirEntry (Dir name meta children rderr))) s)
    as [s1 [err|]]; simpl in H1; [exact H1|].
  assert (H2 : I (match rderr with
                  | Some e =>
                      fn path
                         (Failed (Some (dirEntry (Dir name meta children rderr))) e)
                         s1
                  | None => (s1, None)
                  end).1).
  { destruct rderr; [apply Hfn|]; exact H1. }
  destruct (match rderr with Some e => _ | None => _ end)
    as [s2 [err|]]; simpl in H2; [exact H2|].
  apply walkDirs_invariant, H2.
Qed.

Lemma WalkDir_invariant root fs s : I s -> I (WalkDir fn root fs s).1.
Proof.
  intros Hs. unfold WalkDir.
  assert (Hw : I (match fs with
                  | Some n =>
                      match nodeMeta n with
                      | Some _ => walkDir fn root n s
                      | None => fn root (Failed None lstatError) s
                      end
                  | None => fn root (Failed None lstatError) s
                  end).1).
  { destruct fs as [n|]; [destruct (nodeMeta n)|];
      auto using walkDir_invariant. }
  destruct (match fs with Some n => _ | None => _ end) as [s' r].
  exact Hw.
Qed.
End Invariant.

(** A callback that answers only nil or [SkipDir] makes [WalkDir]
    return nil. *)
Section NilOrSkip.
Context (Hfn : forall path a s,
            (fn path a s).2 = None \/ (fn path a s).2 = Some SkipDir).

Lemma walkDir_nil_or_skip n :
  forall path s,
    (walkDir fn path n s).2 = None \/ (walkDir fn path n s).2 = Some SkipDir.
Proof.
  induction n as [name meta | name meta children rderr IH]
    using Node_forall_ind; intros path s.
  - rewrite walkDir_File. apply Hfn.
  - rewrite walkDir_Dir.
    destruct (Hfn path (Visit (dirEntry (Dir name meta children rderr))) s)
      as [H1|H1];
      destruct (fn path (Visit (dirEntry (Dir name meta children rderr))) s)
        as [s1 r1]; simpl in H1; subst r1; [|left; reflexivity].
    assert (H2 : let r := match rderr with
                    | Some e =>
                        fn path
                           (Failed (Some (dirEntry (Dir name meta children rderr))) e)
                           s1
                    | None => (s1, None)
                    end in r.2 = None \/ r.2 = Some SkipDir).
    { destruct rderr; [apply Hfn | left; reflexivity]. }
    destruct (match rderr with Some e => _ | None => _ end) as [s2 r2];
      simpl in H2.
    destruct H2 as [->| ->]; [|left; reflexivity].
    clear s s1. revert s2.
    induction IH as [|c cs Hc _ IHcs]; intros s; simpl; [left; reflexivity|].
    destruct (Hc (Join path (nodeName c)) s) as [Hr|Hr];
      destruct (walkDir fn (Join path (nodeName c)) c s) as [s' r];
      simpl in Hr; subst r.
    + apply IHcs.
    + left. reflexivity.
Qed.

Lemma WalkDir_nil root fs s : (WalkDir fn root fs s).2 = None.
Proof.
  unfold WalkDir.
  assert (Hw : let r := match fs with
                  | Some n =>
                      match nodeMeta n with
                      | Some _ => walkDir fn root n s
                      | None => fn root (Failed None lstatError) s
                      end
                  | None => fn root (Failed None lstatError) s
                  end in r.2 = None \/ r.2 = Some SkipDir).
  { destruct fs as [n|]; [destruct (nodeMeta n)|]; simpl;
      auto using walkDir_nil_or_skip. }
  destruct (match fs with Some n => _ | None => _ end) as [s' r].
  simpl in Hw. destruct Hw as [->| ->]; reflexivity.
Qed.
End NilOrSkip.

End WalkDirFacts.

(** ** The poller: the callback of [Scan] *)

Ltac scan_cases :=
  unfold poller.scanFn, poller.checkDescend, poller.callHandler,
    poller.shouldSkipDir; simpl;
  repeat case_match; simplify_eq/=; try done.

Section PollerCallback.
Import filepath poller.
Context {H : Type} (handler : Handler H).

Lemma scanFn_nil_or_skip ls path a s :
  (scanFn handler ls path a s).2 = None
  \/ (scanFn handler ls path a s).2 = Some SkipDir.
Proof. scan_cases; auto. Qed.


Lemma scanFn_calls_prefix ls path a s :
  calls s `prefix_of` calls (scanFn handler ls path a s).1.
Proof. scan_cases; try apply prefix_app_r; done. Qed.

Lemma scanFn_keeps ls path a s :
  let p' := pol (scanFn handler ls path a s).1 in
  root p' = root (pol s) /\ lastScan p' = lastScan (pol s)
  /\ interval p' = interval (pol s) /\ skipDirs p' = skipDirs (pol s).
Proof. scan_cases. Qed.

(** The first call on a directory with metadata calls the handler. *)
Lemma scanFn_dir_calls ls path name meta children rderr s :
  let out := scanFn handler ls path
               (Visit (dirEntry (Dir name (Some meta) children rderr))) s in
  calls out.1 = calls s ++ [(path, dirInfo name meta)]
  /\ hstate out.1 = (handler path (dirInfo name meta) (hstate s)).1
  /\ fileCount out.1 = fileCount s
  /\ dirCount out.1 = dirCount s + 1
  /\ visitedDirs out.1 = {[path]} ∪ visitedDirs s.
Proof.
  unfold dirInfo. scan_cases;
    match goal with Hh : handler _ _ _ = _ |- _ => rewrite Hh end; done.
Qed.

Lemma scanFn_dir_skipErr ls path name meta children rderr s h' err :
  handler path (dirInfo name meta) (hstate s) = (h', Some err) ->
  errors_Is err ErrSkipDir = true ->
  scanFn handler ls path
         (Visit (dirEntry (Dir name (Some meta) children rderr))) s
  = (incSkippedDirs
       (withPol (printf (LogSkippingIgnored path))
          (mkScanState (pol s) (fileCount s) (dirCount s + 1) (skippedDirs s)
             ({[path]} ∪ visitedDirs s) h'
             (calls s ++ [(path, dirInfo name meta)]))),
     Some SkipDir).
Proof.
  intros Hh He. unfold scanFn, callHandler; simpl.
  fold (dirInfo name meta). rewrite Hh, He. reflexivity.
Qed.



(** When the first call on a directory answers [SkipDir], the walk of
    the directory visits it alone. *)
Lemma walkDir_pruned ls path name meta children rderr s :
  (scanFn handler ls path
     (Visit (dirEntry (Dir name (Some meta) children rderr))) s).2
    = Some SkipDir ->
  dirModTime
    (pol (scanFn handler ls path
            (Visit (dirEntry (Dir name (Some meta) children rderr))) s).1)
    = dirModTime (pol s) ->
  visitsOnly handler path (dirInfo name meta) s
    (walkDir (scanFn handler ls) path (Dir name (Some meta) children rderr) s).
Proof.
  intros Hskip Hdmt.
  pose proof (scanFn_dir_calls ls path name meta children rderr s) as Hc.
  cbv zeta in Hc.
  destruct (scanFn handler ls path
              (Visit (dirEntry (Dir name (Some meta) children rderr))) s)
    as [s1 r] eqn:Hfn.
  simpl in Hskip, Hdmt, Hc. subst r.
  rewrite (walkDir_Dir_skip _ _ _ _ _ _ _ _ Hfn).
  unfold visitsOnly; simpl. intuition.
Qed.

End PollerCallback.

(** ** The poller: [Scan] *)

Section PollerScan.
Import filepath poller.
Context {H : Type} (handler : Handler H).

Lemma dirPaths_Dir path name meta children rderr :
  dirPaths path (Dir name meta children rderr)
  = {[path]} ∪ dirPathsIn path children.
Proof.
  simpl. f_equal. induction children as [|c cs IH]; simpl; [reflexivity|].
  rewrite IH. reflexivity.
Qed.

(** [Scan] is the walk with the start of the previous scan, then the
    cleanup. *)
Lemma Scan_walk now fs p h :
  exists s,
    WalkDir (scanFn handler (lastScan p)) (root p) fs
            (mkScanState (printf (LogStartingScan (root p)) (setLastScan now p))
                         0 0 0 ∅ h [])
      = (s, None)
    /\ Scan handler now fs p h
       = mkScanResult
           (printf (LogScanCompleted (fileCount s) (dirCount s) (skippedDirs s))
                   (cleanupDirModTime (visitedDirs s) (pol s)))
           (hstate s) (calls s) (visitedDirs s) None.
Proof.
  unfold Scan. simpl.
  pose proof (WalkDir_nil (scanFn handler (lastScan p))
                (scanFn_nil_or_skip handler (lastScan p)) (root p) fs
                (mkScanState (printf (LogStartingScan (root p)) (setLastScan now p))
                             0 0 0 ∅ h [])) as Hnil.
  destruct (WalkDir _ _ _ _) as [s err]. simpl in Hnil. subst err.
  exists s. split; reflexivity.
Qed.















(** The state in which a scan ends is the state in which the walk of a
    readable root ends. *)
Lemma Scan_readable now n m p h :
  nodeMeta n = Some m ->
  let s := (walkDir (scanFn handler (lastScan p)) (root p) n
              (mkScanState (printf (LogStartingScan (root p)) (setLastScan now p))
                           0 0 0 ∅ h [])).1 in
  Scan handler now (Some n) p h
  = mkScanResult
      (printf (LogScanCompleted (fileCount s) (dirCount s) (skippedDirs s))
              (cleanupDirModTime (visitedDirs s) (pol s)))
      (hstate s) (calls s) (visitedDirs s) None.
Proof.
  intros Hm s. destruct (Scan_walk now (Some n) p h) as (s' & Hw & ->).
  pose proof (WalkDir_readable (scanFn handler (lastScan p)) (root p) n m
                (mkScanState (printf (LogStartingScan (root p)) (setLastScan now p))
                             0 0 0 ∅ h []) Hm) as Hr.
  rewrite Hw in Hr. cbn [fst] in Hr. fold s in Hr. by subst s'.
Qed.



(** C9. The function [Scan] gives to [WalkDir] answers nil or
    [filepath.SkipDir], whatever the entry, the error of the walk and
    the answer of the handler; so [Scan] returns nil on every file
    system, readable or not. *)
Theorem scan_returns_nil :
  (forall ls path a s,
      (scanFn handler ls path a s).2 = None
      \/ (scanFn handler ls path a s).2 = Some SkipDir)
  /\ (forall now fs p h, rErr (Scan handler now fs p h) = None).
Proof.
  split; [apply scanFn_nil_or_skip|].
  intros now fs p h. destruct (Scan_walk now fs p h) as (s & _ & ->).
  reflexivity.
Qed.

End PollerScan.

(** ** The poller: the rules of a scan *)

Section PollerRules.
Import filepath poller.
Context {H : Type} (handler : Handler H).


(** C6, as the code has it. For every directory [D] whose metadata
    [d.Info()] gives, the first thing the walk does with [D] after
    counting it is to call the handler on [D]: the call is made before
    anything under [D] is visited and before [D] is pruned.  When the
    handler answers [ErrSkipDir], bare or wrapped, the walk of [D] is
    this visit alone: nothing under [D] is visited, and the remembered
    modification times are neither consulted nor updated. *)
Theorem scan_dir_handler_first ls path name meta children rderr s :
  let info := dirInfo name meta in
  let out := walkDir (scanFn handler ls) path
               (Dir name (Some meta) children rderr) s in
  (calls s ++ [(path, info)]) `prefix_of` calls out.1
  /\ (forall h' err,
        handler path info (hstate s) = (h', Some err) ->
        errors_Is err ErrSkipDir = true ->
        visitsOnly handler path info s out
        /\ skippedDirs out.1 = skippedDirs s + 1).
Proof.
  intros info out. subst out info. split.
  - apply (walkDir_Dir_after (scanFn handler ls)
             (fun s' => (calls s ++ [(path, dirInfo name meta)])
                          `prefix_of` calls s')).
    + intros path' a s' Hs'. etrans; [exact Hs'|].
      apply scanFn_calls_prefix.
    + pose proof (scanFn_dir_calls handler ls path name meta children rderr s)
        as (Hc & _).
      rewrite Hc. reflexivity.
  - intros h' err Hh He.
    pose proof (scanFn_dir_skipErr handler ls path name meta children rderr
                  s h' err Hh He) as Hfn.
    split.
    + apply walkDir_pruned; rewrite Hfn; reflexivity.
    + rewrite (walkDir_Dir_skip _ _ _ _ _ _ _ _ Hfn). reflexivity.
Qed.



End PollerRules.

(** ** The poller: examples *)

Section PollerExamples.
Import filepath poller.

(** The three scans of an unchanged tree: everything, then the
    directories, then the root alone. *)
Example demo_three_scans :
  map fst (rCalls scan1) = ["/r"; "/r/subdir"; "/r/subdir/file.txt"]
  /\ map fst (rCalls scan2) = ["/r"; "/r/subdir"]
  /\ map fst (rCalls scan3) = ["/r"].
Proof. vm_compute. repeat split. Qed.



Lemma scan_dir_handler_first_witness :
  visitsOnly skipIgnored "/r/ignored" (dirInfo "ignored" demoMeta)
    (demoScanState demoPoller)
    (walkDir (scanFn skipIgnored 0) "/r/ignored" ignoredTree
             (demoScanState demoPoller)).
Proof.
  apply (scan_dir_handler_first skipIgnored 0 "/r/ignored" "ignored" demoMeta
           _ None (demoScanState demoPoller)) with (h' := tt) (err := ErrSkipDir).
  - reflexivity.
  - reflexivity.
Defined.

(** C6 as stated fails: a directory whose metadata cannot be read is
    visited and entered, and the handler is never called for it. *)
Lemma scan_dir_unreadable_counterexample :
  let r := Scan handleAll 1000
             (Some (Dir "r" (Some demoMeta)
                        [Dir "d" None [File "x" (Some demoMeta)] None] None))
             demoPoller tt in
  bool_decide ("/r/d" ∈ rVisited r) = true
  /\ map fst (rCalls r) = ["/r"; "/r/d/x"]
  /\ ~ In "/r/d" (map fst (rCalls r))
  /\ In "/r/d/x" (map fst (rCalls r)).
Proof.
  assert (Hc : map fst (rCalls (Scan handleAll 1000
                 (Some (Dir "r" (Some demoMeta)
                            [Dir "d" None [File "x" (Some demoMeta)] None] None))
                 demoPoller tt)) = ["/r"; "/r/d/x"]) by (vm_compute; reflexivity).
  cbv zeta. rewrite Hc. repeat split; try (vm_compute; reflexivity).
  - simpl. intros [Hx|[Hx|[]]]; discriminate Hx.
  - simpl. auto.
Qed.





End PollerExamples.

(** ** The name rule of the poller and of the watcher *)

Section SkipRule.
Import filepath.






Lemma walk_Dir {S : Type} (fn : WalkFunc S) path name meta children s info err :
  walk fn path (Dir name meta children (Some err)) info s
  = fn path (Info info (Some err)) s.
Proof. simpl. destruct (fn path (Info info (Some err)) s) as [s1 [e|]]; reflexivity. Qed.


Lemma Walk_readable {S : Type} (fn : WalkFunc S) root n info s :
  lstat n = Some info ->
  Walk fn root (Some n) s
  = (let '(s', err) := walk fn root n info s in
     (s', match err with
          | Some e =>
              if decide (e = SkipDir) then None
              else if decide (e = SkipAll) then None else Some e
          | None => None
          end)).
Proof. intros Hl. unfold Walk. rewrite Hl. reflexivity. Qed.



End SkipRule.

Section SkipRuleExamples.
Import filepath.



End SkipRuleExamples.

(** ** The watcher: the buffer and the flush *)

Section WatcherFacts.
Import watcher.
Context {H : Type} (handler : Handler H).

Lemma Run_live ms : forall rest st,
  Run handler (map Live ms ++ rest) st = Run handler rest (after handler ms st).
Proof.
  induction ms as [|m ms IH]; intros rest st; simpl; [reflexivity|].
  apply IH.
Qed.






Lemma foldl_process now evs : forall st,
  let st' := foldl (process handler now) st evs in
  handled st' = handled st ++ map (fun ev => (ev, now)) evs
  /\ pending (wat st') = pending (wat st)
  /\ debounce (wat st') = debounce (wat st)
  /\ flush (wat st') = flush (wat st)
  /\ watches (wat st') = watches (wat st).
Proof.
  induction evs as [|ev evs IH]; intros st; simpl.
  - rewrite app_nil_r. done.
  - destruct (IH (process handler now st ev)) as (Hh & Hp & Hd & Hf & Hw).
    rewrite Hh, Hp, Hd, Hf, Hw. unfold process.
    destruct (handler ev (hstate st)) as [h' [err|]]; simpl;
      rewrite <- app_assoc; done.
Qed.

Lemma flush_handled now st :
  handled (flushPending handler now st)
  = handled st
    ++ map (fun ev => (ev, now))
           (map_to_list (filter (due (wat st) now) (pending (wat st)))).*2.
Proof. unfold flushPending. by rewrite (proj1 (foldl_process _ _ _)). Qed.

Lemma flush_pending now st :
  pending (wat (flushPending handler now st))
  = filter (fun kv => ¬ due (wat st) now kv) (pending (wat st)).
Proof.
  unfold flushPending.
  by rewrite (proj1 (proj2 (foldl_process _ _ _))).
Qed.












End WatcherFacts.

(** ** The watcher: debounce *)

Section WatcherDebounce.
Import watcher.
Context {H : Type} (handler : Handler H).

Lemma Sub_lt d t u : 0 < d -> t - u < d -> time.Sub t u < d.
Proof. unfold time.Sub, time.minDuration, time.maxDuration. lia. Qed.












End WatcherDebounce.

Section WatcherCoalescing.
Import watcher.
Context {H : Type} (handler : Handler H).

Lemma Run_all_live ms st :
  Run handler (map Live ms) st = (after handler ms st, Running).
Proof.
  rewrite <- (app_nil_r (map Live ms)), Run_live. reflexivity.
Qed.


End WatcherCoalescing.

(** ** The watcher: the time of a dispatch *)

Section WatcherTiming.
Import watcher.
Context {H : Type} (handler : Handler H).







End WatcherTiming.

Section WatcherDispatchTiming.
Import watcher.
Context {H : Type} (handler : Handler H).


End WatcherDispatchTiming.

(** ** The watcher: examples *)

Section WatcherExamples.
Import watcher.






End WatcherExamples.

(** ** The loops of [Run] *)

Section PollerRun.
Import filepath poller.
Context {H : Type} (handler : Handler H).

Lemma logScanError_nil mk now fs p h :
  logScanError mk (Scan handler now fs p h) = rPoller (Scan handler now fs p h).
Proof.
  unfold logScanError.
  destruct (Scan_walk handler now fs p h) as (s & _ & ->). reflexivity.
Qed.

Lemma runLoop_ticks ticks : forall rest p h cs,
  runLoop handler (map tick ticks ++ rest) p h cs
  = (let '(p', h', cs') := foldl (scanOnce handler) (p, h, cs) ticks in
     runLoop handler rest p' h' cs').
Proof.
  induction ticks as [|[now fs] ticks IH]; intros rest p h cs; simpl;
    [reflexivity|].
  rewrite logScanError_nil. apply IH.
Qed.

Lemma Run_ticks now fs ticks rest p h :
  Run handler now fs (map tick ticks ++ rest) p h
  = (let '(p', h', cs') := foldl (scanOnce handler) (p, h, []) ((now, fs) :: ticks) in
     runLoop handler rest p' h' cs').
Proof.
  unfold Run. rewrite logScanError_nil, runLoop_ticks. reflexivity.
Qed.

End PollerRun.

Section RunResults.
Import filepath.

(** C8, as the code has it.  [Poller.Run] makes one scan at once and
    one scan for each tick, goes on as long as the context is not done,
    and returns [ctx.Err()] when it is: no error of a scan is returned
    or changes the run.  [Watcher.Run] goes on over events, errors of
    the source and flushes; an error of the source adds a line to the
    log and nothing else.  It returns [ctx.Err()] when the context is
    done, and nil when the channel of the events or of the errors of
    the source is closed. *)
Theorem run_until_cancelled :
  (forall (H : Type) (handler : poller.Handler H) now fs ticks p h,
      poller.Run handler now fs (map tick ticks) p h
      = (foldl (scanOnce handler) (p, h, []) ((now, fs) :: ticks),
         poller.Running))
  /\ (forall (H : Type) (handler : poller.Handler H) now fs ticks err rest p h,
        poller.Run handler now fs (map tick ticks ++ poller.Done err :: rest) p h
        = (foldl (scanOnce handler) (p, h, []) ((now, fs) :: ticks),
           poller.Returned (Some err)))
  /\ (forall (H : Type) (handler : watcher.Handler H) ms st,
        watcher.Run handler (map watcher.Live ms) st
        = (after handler ms st, watcher.Running))
  /\ (forall (H : Type) (handler : watcher.Handler H) ms err rest st,
        watcher.Run handler (map watcher.Live ms ++ watcher.Done err :: rest) st
        = (after handler ms st, watcher.Returned (Some err)))
  /\ (forall (H : Type) (handler : watcher.Handler H) ms rest st,
        watcher.Run handler (map watcher.Live ms ++ watcher.EventsClosed :: rest) st
        = (after handler ms st, watcher.Returned None)
        /\ watcher.Run handler
             (map watcher.Live ms ++ watcher.ErrorsClosed :: rest) st
           = (after handler ms st, watcher.Returned None))
  /\ (forall (H : Type) (handler : watcher.Handler H) err ms st,
        after handler (watcher.GotError err :: ms) st
        = after handler ms
            (watcher.mkState
               (watcher.printf (watcher.LogWatchError err) (watcher.wat st))
               (watcher.hstate st) (watcher.handled st))).
Proof.
  split; [|split; [|split; [|split; [|split]]]].
  - intros H handler now fs ticks p h.
    rewrite <- (app_nil_r (map tick ticks)), Run_ticks.
    destruct (foldl _ _ _) as [[p' h'] cs']. reflexivity.
  - intros H handler now fs ticks err rest p h. rewrite Run_ticks.
    destruct (foldl _ _ _) as [[p' h'] cs']. reflexivity.
  - intros H handler ms st. apply Run_all_live.
  - intros H handler ms err rest st. rewrite Run_live. reflexivity.
  - intros H handler ms rest st. rewrite !Run_live. split; reflexivity.
  - intros H handler err ms st. reflexivity.
Qed.

(** C8 as stated fails: when the channel of the events is closed,
    [Watcher.Run] returns without the context being done, and what it
    returns is nil, not the error of the context. *)
Lemma watcher_run_closed_counterexample :
  watcher.Run acceptEvents [watcher.EventsClosed] testWatcher
  = (testWatcher, watcher.Returned None)
  /\ watcher.Run acceptEvents
       [watcher.Live (watcher.FlushTick (ms 50)); watcher.ErrorsClosed;
        watcher.Done Canceled] testWatcher
     = (testWatcher, watcher.Returned None).
Proof. vm_compute. split; reflexivity. Qed.

End RunResults.

(** * Further properties *)

(** ** The state cache: removal, cleaning, size *)

Section StateCacheMore.
Import state.

Lemma Has_missing now path info c :
  entries c !! path = None -> Has now path info c = (false, c).
Proof. intros Hl. unfold Has. by rewrite Hl. Qed.

Lemma Cache_eq (c1 c2 : Cache) :
  entries c1 = entries c2 -> ttl c1 = ttl c2 -> c1 = c2.
Proof. destruct c1, c2; simpl; intros -> ->; reflexivity. Qed.

(** X1. After [Remove path], [Has path] answers [false] whatever the cache
    held and leaves the cache as it is; so it does on a new cache.
    [Remove] takes the entry of [path] away and leaves every other entry,
    and removing twice is removing once. *)
Theorem cache_remove_has now path info c t :
  Has now path info (Remove path c) = (false, Remove path c)
  /\ Has now path info (NewCache t) = (false, NewCache t)
  /\ entries (Remove path c) = delete path (entries c)
  /\ ttl (Remove path c) = ttl c
  /\ Remove path (Remove path c) = Remove path c
  /\ Remove path (Add now path info c) = Remove path c.
Proof.
  split; [|split; [|split; [|split; [|split]]]].
  - apply Has_missing. apply lookup_delete_eq.
  - apply Has_missing. apply lookup_empty.
  - reflexivity.
  - reflexivity.
  - apply Cache_eq; [|reflexivity]. simpl. apply delete_delete_eq.
  - apply Cache_eq; [|reflexivity]. simpl. apply delete_insert_eq.
Qed.

Lemma Clean_lookup now c path :
  entries (Clean now c) !! path
  = match entries c !! path with
    | Some e => if decide (time.Since now (Added e) <= ttl c) then Some e
                else None
    | None => None
    end.
Proof.
  unfold Clean; simpl. rewrite map_lookup_filter.
  destruct (entries c !! path) as [e|]; simpl; [|reflexivity].
  unfold time.Since.
  case_guard as Hg; simpl in Hg; case_decide; try reflexivity; lia.
Qed.

(** X2. [Clean] and [Has] agree: cleaning changes no answer of [Has] at the
    same time and leaves nothing for [Has] to evict; what [Has] evicts,
    [Clean] would have removed; cleaning twice is cleaning once; and
    cleaning never makes the cache larger. *)
Theorem cache_clean_has now path info c :
  Has now path info (Clean now c) = ((Has now path info c).1, Clean now c)
  /\ Clean now (Has now path info c).2 = Clean now c
  /\ Clean now (Clean now c) = Clean now c
  /\ (Size (Clean now c) <= Size c)%nat.
Proof.
  split; [|split; [|split]].
  - unfold Has at 1. rewrite Clean_lookup. unfold Has.
    destruct (entries c !! path) as [e|] eqn:He; [|reflexivity].
    case_decide as Hage.
    + change (ttl (Clean now c)) with (ttl c).
      destruct (Z.ltb_spec (ttl c) (time.Since now (Added e))); [lia|].
      reflexivity.
    + destruct (Z.ltb_spec (ttl c) (time.Since now (Added e))); [|lia].
      reflexivity.
  - apply Cache_eq.
    + apply map_eq. intros q. rewrite !Clean_lookup. unfold Has.
      destruct (entries c !! path) as [e|] eqn:He; [|reflexivity].
      destruct (Z.ltb_spec (ttl c) (time.Since now (Added e))) as [Hexp|Hage];
        [|reflexivity].
      simpl. destruct (decide (path = q)) as [<-|Hne].
      * rewrite lookup_delete_eq, He. by rewrite decide_False by lia.
      * by rewrite lookup_delete_ne.
    + unfold Has. destruct (entries c !! path) as [e|]; [|reflexivity].
      destruct (ttl c <? _); reflexivity.
  - apply Cache_eq; [|reflexivity].
    apply map_eq. intros q. rewrite !Clean_lookup.
    change (ttl (Clean now c)) with (ttl c).
    destruct (entries c !! q) as [e|]; [|reflexivity].
    case_decide as Hage; [|reflexivity]. by rewrite decide_True.
  - unfold Size, Clean; simpl. apply map_subseteq_size, map_filter_subseteq.
Qed.

(** X3. The size of the cache: none for a new cache; one more after [Add] of
    a path that is not there, the same after [Add] of one that is; one
    less after [Remove] of a path that is there; and [Has] never makes it
    larger.  Adding a path twice leaves what adding the second time alone
    leaves. *)
Theorem cache_size_ops now now' path info info' c t :
  Size (NewCache t) = 0%nat
  /\ Size (Add now path info c)
     = match entries c !! path with
       | Some _ => Size c
       | None => S (Size c)
       end
  /\ Size (Remove path c)
     = match entries c !! path with
       | Some _ => pred (Size c)
       | None => Size c
       end
  /\ (Size (Has now path info c).2 <= Size c)%nat
  /\ Add now' path info' (Add now path info c) = Add now' path info' c.
Proof.
  split; [|split; [|split; [|split]]].
  - apply map_size_empty.
  - unfold Size, Add; simpl.
    destruct (entries c !! path) as [e|] eqn:He.
    + apply map_size_insert_Some. eauto.
    + by apply map_size_insert_None.
  - unfold Size, Remove; simpl.
    destruct (entries c !! path) as [e|] eqn:He.
    + rewrite map_size_delete, He. reflexivity.
    + by rewrite map_size_delete, He.
  - unfold Size, Has.
    destruct (entries c !! path) as [e|] eqn:He; [|done].
    destruct (ttl c <? _); simpl; [|done].
    rewrite map_size_delete, He. simpl. lia.
  - apply Cache_eq; [|reflexivity]. simpl. apply insert_insert_eq.
Qed.

End StateCacheMore.

(** ** The poller: configuration, counters and the fingerprint table *)

Section PollerMore.
Import filepath poller.
Context {H : Type} (handler : Handler H).

Lemma foldl_skip_lookup (dirs : list string) :
  forall (m : gmap string bool) name,
    default false (foldl (fun m dir => <[dir := true]> m) m dirs !! name)
    = bool_decide (name ∈ dirs) || default false (m !! name).
Proof.
  induction dirs as [|d dirs IH]; intros m name; cbn [foldl].
  - case_bool_decide as Hin; [by apply elem_of_nil in Hin | reflexivity].
  - rewrite IH. destruct (decide (name = d)) as [->|Hne].
    + rewrite lookup_insert_eq. simpl.
      rewrite (bool_decide_eq_true_2 (d ∈ d :: dirs)) by apply list_elem_of_here.
      by rewrite orb_true_r.
    + rewrite lookup_insert_ne by done.
      f_equal. apply bool_decide_ext. rewrite elem_of_cons. naive_solver.
Qed.

(** X4. A new poller has a positive interval, the configured one when that
    is positive and five minutes otherwise; it has made no scan and
    remembers no directory; and the names it skips are the five it
    starts with and the configured ones, no others. *)
Theorem newPoller_config cfg name :
  0 < interval (NewPoller cfg)
  /\ interval (NewPoller cfg)
     = (if decide (0 < ScanInterval cfg) then ScanInterval cfg
        else 5 * time.Minute)
  /\ GetLastScan (NewPoller cfg) = 0
  /\ dirModTime (NewPoller cfg) = ∅
  /\ isSkipDir (NewPoller cfg) name
     = bool_decide (name ∈ SkipDirs cfg ++ staticSkipNames).
Proof.
  unfold NewPoller, isSkipDir, GetLastScan; simpl.
  split; [|split; [|split; [|split]]]; try reflexivity.
  - destruct (Z.leb_spec (ScanInterval cfg) 0); [reflexivity | lia].
  - destruct (Z.leb_spec (ScanInterval cfg) 0); case_decide; try reflexivity; lia.
  - rewrite foldl_skip_lookup.
    destruct (decide (name ∈ SkipDirs cfg)) as [Hin|Hnin].
    + rewrite !bool_decide_eq_true_2; [reflexivity | | exact Hin].
      apply elem_of_app; by left.
    + rewrite (bool_decide_eq_false_2 _ Hnin). simpl.
      unfold defaultSkipDirs, staticSkipNames.
      destruct (decide (name ∈ [".git"; ".dropbox.cache"; "node_modules";
                                ".svn"; ".hg"])) as [Hs|Hs].
      * rewrite (bool_decide_eq_true_2 (name ∈ SkipDirs cfg ++ _))
          by (apply elem_of_app; by right).
        rewrite !elem_of_cons in Hs.
        destruct Hs as [->|[->|[->|[->|[->|Hs]]]]];
          [reflexivity..|by apply elem_of_nil in Hs].
      * rewrite (bool_decide_eq_false_2 (name ∈ SkipDirs cfg ++ _))
          by (rewrite elem_of_app; tauto).
        rewrite !elem_of_cons in Hs.
        rewrite !lookup_insert_ne by (intros <-; tauto).
        by rewrite lookup_empty.
Qed.


(** X5. [SetSkipDir] sets the answer of the skip set for its name and for no
    other name, and leaves the rest of the poller; but taking a dotted
    name such as [.git] out of the skip set does not make a scan enter
    it, as the dot rule of the name still prunes it. *)
Theorem setSkipDir_rule name skip p q :
  isSkipDir (SetSkipDir name skip p) q
  = (if decide (q = name) then skip else isSkipDir p q)
  /\ dirModTime (SetSkipDir name skip p) = dirModTime p
  /\ lastScan (SetSkipDir name skip p) = lastScan p
  /\ (String.prefix "." name = true -> name <> "." ->
      skipName (SetSkipDir name false p) name = true)
  /\ (String.prefix "." q = false ->
      skipName (SetSkipDir q false p) q = false).
Proof.
  split; [|split; [|split; [|split]]]; try reflexivity.
  - unfold isSkipDir, SetSkipDir; simpl.
    destruct skip; case_decide as Hq; subst.
    + by rewrite lookup_insert_eq.
    + by rewrite lookup_insert_ne.
    + by rewrite lookup_delete_eq.
    + by rewrite lookup_delete_ne.
  - intros Hdot Hne. unfold skipName. rewrite Hdot.
    apply String.eqb_neq in Hne. rewrite Hne. apply orb_true_r.
  - intros Hdot. unfold skipName, isSkipDir, SetSkipDir; simpl.
    rewrite lookup_delete_eq, Hdot. reflexivity.
Qed.

Lemma scanFn_logger_prefix ls path a s :
  logger (pol s) `prefix_of` logger (pol (scanFn handler ls path a s).1).
Proof. scan_cases; repeat (etrans; [|apply prefix_app_r; reflexivity]); done. Qed.

(** X6. A scan keeps the root, the interval and the skip set of the poller,
    sets the time of the last scan to its own start, and only adds to the
    log: the lines of the log before the scan are its first lines after
    it, followed by the line of the start of the scan. *)
Theorem scan_keeps_config now fs p h :
  let p' := rPoller (Scan handler now fs p h) in
  root p' = root p
  /\ interval p' = interval p
  /\ skipDirs p' = skipDirs p
  /\ GetLastScan p' = now
  /\ (logger p ++ [LogStartingScan (root p)]) `prefix_of` logger p'.
Proof.
  destruct (Scan_walk handler now fs p h) as (s & Hw & ->). simpl.
  pose proof (WalkDir_invariant (scanFn handler (lastScan p))
                (fun s => root (pol s) = root p /\ interval (pol s) = interval p
                          /\ skipDirs (pol s) = skipDirs p
                          /\ lastScan (pol s) = now
                          /\ (logger p ++ [LogStartingScan (root p)])
                               `prefix_of` logger (pol s))) as Hinv.
  assert (Hfn : forall path a s0,
    (fun s => root (pol s) = root p /\ interval (pol s) = interval p
              /\ skipDirs (pol s) = skipDirs p
              /\ lastScan (pol s) = now
              /\ (logger p ++ [LogStartingScan (root p)])
                   `prefix_of` logger (pol s)) s0 ->
    (fun s => root (pol s) = root p /\ interval (pol s) = interval p
              /\ skipDirs (pol s) = skipDirs p
              /\ lastScan (pol s) = now
              /\ (logger p ++ [LogStartingScan (root p)])
                   `prefix_of` logger (pol s))
      (scanFn handler (lastScan p) path a s0).1).
  { intros path a s0 (Hr & Hi & Hs & Hl & Hp).
    destruct (scanFn_keeps handler (lastScan p) path a s0) as (Kr & Kl & Ki & Ks).
    rewrite Kr, Kl, Ki, Ks. repeat split; try assumption.
    etrans; [exact Hp | apply scanFn_logger_prefix]. }
  specialize (Hinv Hfn (root p) fs
                (mkScanState (printf (LogStartingScan (root p)) (setLastScan now p))
                             0 0 0 ∅ h [])).
  rewrite Hw in Hinv. simpl in Hinv.
  destruct Hinv as (Hr & Hi & Hs & Hl & Hp); [by repeat split|].
  unfold GetLastScan; simpl. repeat split; try assumption.
  etrans; [exact Hp | apply prefix_app_r; reflexivity].
Qed.

(** X7. A scan whose root cannot be read (it is missing, or [Lstat] on it
    fails) calls no handler, logs the error of the walk and returns nil;
    it counts nothing and forgets every remembered directory, so the
    next scan of a root that is back prunes nothing by modification
    time. *)
Theorem scan_unreadable_root now fs p h :
  match fs with Some n => nodeMeta n | None => None end = None ->
  Scan handler now fs p h
  = mkScanResult
      {| root := root p; interval := interval p; lastScan := now;
         dirModTime := ∅;
         logger := logger p ++ [LogStartingScan (root p);
                                LogWalkError (root p) lstatError;
                                LogScanCompleted 0 0 0];
         skipDirs := skipDirs p |}
      h [] ∅ None.
Proof.
  intros Hfs.
  assert (Hscan : Scan handler now fs p h
    = mkScanResult
        (printf (LogScanCompleted 0 0 0)
           (cleanupDirModTime ∅
              (printf (LogWalkError (root p) lstatError)
                 (printf (LogStartingScan (root p)) (setLastScan now p)))))
        h [] ∅ None).
  { unfold Scan, WalkDir. destruct fs as [n|]; [rewrite Hfs|]; reflexivity. }
  rewrite Hscan. unfold printf, cleanupDirModTime, setDirModTime; simpl.
  f_equal. f_equal.
  - apply map_eq. intros k. rewrite lookup_empty.
    apply map_lookup_filter_None. right. intros t _ Hin. simpl in Hin.
    by apply not_elem_of_empty in Hin.
  - by rewrite <- !app_assoc.
Qed.


Lemma size_add_visited (path : string) (V : gset string) :
  Z.of_nat (size ({[path]} ∪ V)) <= Z.of_nat (size V) + 1.
Proof.
  rewrite size_union_alt, size_singleton.
  pose proof (subseteq_size (V ∖ {[path]}) V) as Hle.
  specialize (Hle ltac:(set_solver)). lia.
Qed.

Lemma scanFn_counted ls path a s :
  counted s -> counted (scanFn handler ls path a s).1.
Proof.
  unfold counted. intros (Hf & Hk & Hv & Hc).
  pose proof (size_add_visited path (visitedDirs s)) as Hsz.
  scan_cases; rewrite ?length_app; simpl; lia.
Qed.

Lemma scanFn_total ls path a s :
  let s' := (scanFn handler ls path a s).1 in
  fileCount s' + dirCount s'
  = fileCount s + dirCount s + match a with Visit _ => 1 | Failed _ _ => 0 end.
Proof. scan_cases; lia. Qed.

Lemma nodeCount_Dir name meta children rderr :
  nodeCount (Dir name meta children rderr) = 1 + nodeCountIn children.
Proof. reflexivity. Qed.

Lemma nodeCount_nonneg n : 0 <= nodeCount n.
Proof.
  induction n as [name meta | name meta children rderr IH]
    using Node_forall_ind; [simpl; lia|].
  rewrite nodeCount_Dir.
  assert (0 <= nodeCountIn children); [|lia].
  induction IH as [|c cs Hc _ IHcs]; simpl; lia.
Qed.

Lemma nodeCountIn_nonneg cs : 0 <= nodeCountIn cs.
Proof.
  induction cs as [|c cs IH]; simpl; [lia|].
  pose proof (nodeCount_nonneg c). lia.
Qed.

Lemma walkDir_total ls n :
  forall path s,
    let s' := (walkDir (scanFn handler ls) path n s).1 in
    fileCount s' + dirCount s' <= fileCount s + dirCount s + nodeCount n.
Proof.
  induction n as [name meta | name meta children rderr IH]
    using Node_forall_ind; intros path s.
  - rewrite walkDir_File. cbv zeta. rewrite scanFn_total. simpl. lia.
  - rewrite nodeCount_Dir, walkDir_Dir. cbv zeta.
    pose proof (nodeCountIn_nonneg children) as Hnn.
    pose proof (scanFn_total ls path
                  (Visit (dirEntry (Dir name meta children rderr))) s) as H1.
    cbv zeta in H1.
    destruct (scanFn handler ls path
                (Visit (dirEntry (Dir name meta children rderr))) s)
      as [s1 [err|]]; simpl in H1; simpl; [lia|].
    assert (H2 : let s2 := (match rderr with
                    | Some e =>
                        scanFn handler ls path
                          (Failed (Some (dirEntry (Dir name meta children rderr))) e)
                          s1
                    | None => (s1, None)
                    end).1 in
                 fileCount s2 + dirCount s2 = fileCount s1 + dirCount s1).
    { destruct rderr; cbv zeta; [rewrite scanFn_total; simpl; lia | reflexivity]. }
    destruct (match rderr with Some e => _ | None => _ end)
      as [s2 [err|]]; simpl in H2; simpl; [lia|].
    assert (Hcs : let s' := (walkDirs (scanFn handler ls) path children s2).1 in
                  fileCount s' + dirCount s'
                  <= fileCount s2 + dirCount s2 + nodeCountIn children);
      [|cbv zeta in Hcs; lia].
    clear H1 H2 Hnn s s1. revert s2.
    induction IH as [|c cs Hc _ IHcs]; intros s; simpl; [lia|].
    specialize (Hc (Join path (nodeName c)) s). cbv zeta in Hc.
    pose proof (nodeCountIn_nonneg cs) as Hnn.
    destruct (walkDir (scanFn handler ls) (Join path (nodeName c)) c s)
      as [s' [err|]]; simpl in Hc.
    + destruct (decide (err = SkipDir)); simpl; lia.
    + specialize (IHcs s'). simpl in IHcs. lia.
Qed.

(** X8. The line that ends the log of a scan gives its counters: files,
    directories, and directories skipped by the handler or the name
    rule.  The skipped directories are among the directories; the scan
    has visited at most as many directory paths as it counts, has called
    the handler at most once for each entry it counts, and counts each
    entry of the tree at most once. *)
Theorem scan_counters now fs p h :
  let r := Scan handler now fs p h in
  exists files dirs skipped,
    last (logger (rPoller r)) = Some (LogScanCompleted files dirs skipped)
    /\ 0 <= files
    /\ 0 <= skipped <= dirs
    /\ Z.of_nat (size (rVisited r)) <= dirs
    /\ Z.of_nat (length (rCalls r)) <= files + dirs
    /\ files + dirs <= fsNodeCount fs.
Proof.
  destruct (Scan_walk handler now fs p h) as (s & Hw & ->). simpl.
  exists (fileCount s), (dirCount s), (skippedDirs s).
  set (s0 := mkScanState (printf (LogStartingScan (root p)) (setLastScan now p))
                         0 0 0 ∅ h []) in *.
  assert (Hc : counted s).
  { pose proof (WalkDir_invariant (scanFn handler (lastScan p)) counted
                  (scanFn_counted (lastScan p)) (root p) fs s0) as Hinv.
    rewrite Hw in Hinv. apply Hinv.
    unfold counted, s0; cbn [fileCount dirCount skippedDirs visitedDirs calls].
    rewrite size_empty. simpl. lia. }
  destruct Hc as (Hf & Hk & Hv & Hc).
  split; [apply last_snoc|].
  repeat split; try assumption; try lia.
  unfold WalkDir in Hw.
  destruct fs as [n|]; [destruct (nodeMeta n)|]; simpl.
  - pose proof (walkDir_total (lastScan p) n (root p) s0) as Ht.
    cbv zeta in Ht.
    destruct (walkDir _ _ _ _) as [s' r]. simplify_eq. simpl in Ht.
    unfold s0 in Ht; simpl in Ht. lia.
  - simplify_eq/=. pose proof (nodeCount_nonneg n). lia.
  - simplify_eq/=. lia.
Qed.


Lemma scanFn_dir_descends ls path name meta children rderr s :
  dirModTime (pol s) !! path = None ->
  skipName (pol s) name = false ->
  (forall h' e, handler path (dirInfo name meta) (hstate s) = (h', Some e) ->
                errors_Is e ErrSkipDir = false) ->
  (scanFn handler ls path
     (Visit (dirEntry (Dir name (Some meta) children rderr))) s).2 = None.
Proof.
  intros Hl Hn Hh. unfold scanFn, checkDescend, callHandler; simpl.
  fold (dirInfo name meta).
  destruct (handler path (dirInfo name meta) (hstate s)) as [h' [e|]] eqn:Hc;
    simpl.
  - rewrite (Hh h' e eq_refl). unfold skipName, isSkipDir in *. simpl.
    rewrite Hn. unfold shouldSkipDir; simpl. rewrite Hl.
    destruct (negb (time.IsZero ls)); reflexivity.
  - rewrite Hn. unfold shouldSkipDir; simpl. rewrite Hl.
    destruct (negb (time.IsZero ls)); reflexivity.
Qed.

Lemma scanFn_calls_elem ls x path a s :
  x ∈ calls s -> x ∈ calls (scanFn handler ls path a s).1.
Proof.
  intros Hx. destruct (scanFn_calls_prefix handler ls path a s) as [k ->].
  apply elem_of_app. by left.
Qed.

(** X9. [ClearCache] forgets every remembered directory and keeps the time
    of the last scan.  The scan that follows enters the root whatever its
    modification time, unless the handler or the name rule prunes it: the
    handler is called for a directory among its entries. *)
Theorem clearCache_rescans now name meta cname cmeta ccs crd cs p h :
  skipName p name = false ->
  (forall h' e, handler (root p) (dirInfo name meta) h = (h', Some e) ->
                errors_Is e ErrSkipDir = false) ->
  dirModTime (ClearCache p) = ∅
  /\ GetLastScan (ClearCache p) = GetLastScan p
  /\ (Join (root p) cname, dirInfo cname cmeta)
     ∈ rCalls (Scan handler now
                 (Some (Dir name (Some meta)
                          (Dir cname (Some cmeta) ccs crd :: cs) None))
                 (ClearCache p) h).
Proof.
  intros Hn Hh. split; [reflexivity|]. split; [reflexivity|].
  rewrite (Scan_readable handler now
             (Dir name (Some meta) (Dir cname (Some cmeta) ccs crd :: cs) None)
             meta (ClearCache p) h eq_refl).
  cbv zeta. cbn [rCalls].
  set (s0 := mkScanState _ 0 0 0 ∅ h []).
  rewrite walkDir_Dir.
  pose proof (scanFn_dir_descends (lastScan (ClearCache p)) (root (ClearCache p))
                name meta (Dir cname (Some cmeta) ccs crd :: cs) None s0)
    as Hd.
  specialize (Hd (lookup_empty _) Hn Hh).
  destruct (scanFn handler (lastScan (ClearCache p)) (root (ClearCache p))
              (Visit (dirEntry (Dir name (Some meta)
                                  (Dir cname (Some cmeta) ccs crd :: cs) None)))
              s0) as [s1 r1].
  simpl in Hd. subst r1. cbn [walkDirs].
  assert (Hc : (Join (root p) cname, dirInfo cname cmeta)
               ∈ calls (walkDir (scanFn handler (lastScan (ClearCache p)))
                          (Join (root (ClearCache p))
                                (nodeName (Dir cname (Some cmeta) ccs crd)))
                          (Dir cname (Some cmeta) ccs crd) s1).1).
  { apply (walkDir_Dir_after (scanFn handler (lastScan (ClearCache p)))
             (fun s' => (Join (root p) cname, dirInfo cname cmeta) ∈ calls s')).
    - intros path a s Hs. by apply scanFn_calls_elem.
    - destruct (scanFn_dir_calls handler (lastScan (ClearCache p))
                  (Join (root p) cname) cname cmeta ccs crd s1) as (Hcalls & _).
      simpl. simpl in Hcalls. rewrite Hcalls.
      apply elem_of_app. right. apply list_elem_of_singleton. reflexivity. }
  destruct (walkDir _ _ (Dir cname (Some cmeta) ccs crd) s1) as [s2 [err|]];
    simpl in Hc.
  - destruct (decide (err = SkipDir)); exact Hc.
  - apply (walkDirs_invariant (scanFn handler (lastScan (ClearCache p)))
             (fun s' => (Join (root p) cname, dirInfo cname cmeta) ∈ calls s'));
      [|exact Hc].
    intros path a s Hs. by apply scanFn_calls_elem.
Qed.

End PollerMore.

(** ** The watcher: the recursive walk of [AddRecursive] *)

Section WatcherWalk.
Import filepath watcher.
Context (addErr : string -> option error).

Lemma walk_Dir_ok {S : Type} (fn : WalkFunc S) path name meta children info s :
  walk fn path (Dir name meta children None) info s
  = match fn path (Info info None) s with
    | (s1, None) => walks fn path children s1
    | (s1, Some e) => (s1, Some e)
    end.
Proof.
  simpl. destruct (fn path (Info info None) s) as [s1 [e|]]; [reflexivity|].
  clear s. revert s1.
  induction children as [|c cs IHcs]; intros s; [reflexivity|].
  cbn [walks]. destruct (lstat c) as [fi|].
  - destruct (walk fn (Join path (nodeName c)) c fi s) as [s' [err|]];
      [|apply IHcs].
    destruct (negb (fiIsDir fi) || negb (bool_decide (err = SkipDir)));
      [reflexivity | apply IHcs].
  - destruct (fn (Join path (nodeName c)) (LstatFailed lstatError) s)
      as [s' [err|]]; [|apply IHcs].
    destruct (decide (err = SkipDir)); [apply IHcs | reflexivity].
Qed.

Lemma watchable_Dir path name m children :
  watchable addErr path (Dir name (Some m) children None)
  = if skipName name then ∅
    else (match addErr path with None => {[path]} | Some _ => ∅ end)
         ∪ watchableIn addErr path children.
Proof.
  simpl. destruct (skipName name); [reflexivity|]. f_equal.
  induction children as [|c cs IH]; simpl; [reflexivity|]. by rewrite IH.
Qed.

Lemma lstat_isDir n info : lstat n = Some info -> fiIsDir info = nodeIsDir n.
Proof.
  unfold lstat. destruct (nodeMeta n); intros Hl; simplify_eq. reflexivity.
Qed.

Lemma lstat_None_watchable path n :
  lstat n = None -> watchable addErr path n = ∅.
Proof.
  unfold lstat. destruct n as [name meta|name meta cs rd]; simpl;
    destruct meta; intros Hl; simplify_eq; reflexivity.
Qed.

(** What the walk of a tree leaves of a watcher. *)
Lemma addFn_walk n :
  forall path info w,
    lstat n = Some info ->
    let out := walk (addFn addErr) path n info w in
    (out.2 = None \/ (out.2 = Some SkipDir /\ fiIsDir info = true))
    /\ watches out.1 = watchable addErr path n ∪ watches w
    /\ pending out.1 = pending w
    /\ debounce out.1 = debounce w
    /\ flush out.1 = flush w
    /\ probes out.1 = probes w.
Proof.
  induction n as [name meta | name meta children rderr IH]
    using Node_forall_ind; intros path info w Hl.
  - pose proof (lstat_isDir _ _ Hl) as Hd. simpl in Hd.
    simpl. rewrite Hd. simpl. split; [by left|]. split; [set_solver|done].
  - pose proof (lstat_isDir _ _ Hl) as Hd. simpl in Hd.
    unfold lstat in Hl. simpl in Hl. destruct meta as [m|]; [|done].
    injection Hl as <-.
    destruct rderr as [e|].
    { rewrite walk_Dir. simpl. split; [by left|]. split; [set_solver|done]. }
    rewrite walk_Dir_ok, watchable_Dir. unfold addFn at 1. simpl.
    destruct (skipName name) eqn:Hskip; simpl.
    { split; [by right|]. split; [set_solver|done]. }
    assert (Hadd : let out := match Add addErr path w with
                              | (w0, Some err) =>
                                  (printf (LogFailedToWatch path err) w0, None)
                              | (w0, None) => (w0, @None error)
                              end in
                   out.2 = None
                   /\ watches out.1
                      = (match addErr path with None => {[path]} | Some _ => ∅ end)
                        ∪ watches w
                   /\ pending out.1 = pending w /\ debounce out.1 = debounce w
                   /\ flush out.1 = flush w /\ probes out.1 = probes w).
    { unfold Add. destruct (addErr path); simpl; repeat split; set_solver. }
    destruct (match Add addErr path w with (w0, Some err) => _ | (w0, None) => _ end)
      as [w1 r1].
    simpl in Hadd. destruct Hadd as (-> & Hw1 & Hp1 & Hd1 & Hf1 & Hb1).
    assert (Hcs : let out := walks (addFn addErr) path children w1 in
                  out.2 = None
                  /\ watches out.1 = watchableIn addErr path children ∪ watches w1
                  /\ pending out.1 = pending w1 /\ debounce out.1 = debounce w1
                  /\ flush out.1 = flush w1 /\ probes out.1 = probes w1).
    { clear Hw1 Hp1 Hd1 Hf1 Hb1. revert w1.
      induction IH as [|c cs Hc _ IHcs]; intros w1; simpl.
      { repeat split. set_solver. }
      destruct (lstat c) as [fi|] eqn:Hlc.
      - specialize (Hc (Join path (nodeName c)) fi w1 eq_refl). cbv zeta in Hc.
        destruct Hc as (Hr & Hw' & Hp' & Hd' & Hf' & Hb').
        destruct (walk (addFn addErr) (Join path (nodeName c)) c fi w1)
          as [w2 r2]. simpl in *.
        specialize (IHcs w2). cbv zeta in IHcs.
        destruct IHcs as (Ir & Iw & Ip & Id & If & Ib).
        assert (Hgoal : (walks (addFn addErr) path cs w2).2 = None
                /\ watches (walks (addFn addErr) path cs w2).1
                   = watchable addErr (Join path (nodeName c)) c
                     ∪ watchableIn addErr path cs ∪ watches w1
                /\ pending (walks (addFn addErr) path cs w2).1 = pending w1
                /\ debounce (walks (addFn addErr) path cs w2).1 = debounce w1
                /\ flush (walks (addFn addErr) path cs w2).1 = flush w1
                /\ probes (walks (addFn addErr) path cs w2).1 = probes w1).
        { rewrite Iw, Hw', Ip, Id, If, Ib. repeat split; try assumption.
          set_solver. }
        destruct Hr as [->|[-> Hdir]]; [exact Hgoal|].
        rewrite Hdir. simpl. exact Hgoal.
      - rewrite (lstat_None_watchable _ _ Hlc). simpl.
        specialize (IHcs (printf (LogCannotAccess (Join path (nodeName c))
                                    lstatError) w1)).
        cbv zeta in IHcs. destruct IHcs as (Ir & Iw & Ip & Id & If & Ib).
        rewrite Iw, Ip, Id, If, Ib. repeat split; try assumption. set_solver. }
    cbv zeta in Hcs. destruct Hcs as (Cr & Cw & Cp & Cd & Cf & Cb).
    rewrite Cr, Cw, Cp, Cd, Cf, Cb, Hw1. split; [by left|].
    repeat split; try assumption. set_solver.
Qed.

Lemma watchable_dirPaths n : forall path, watchable addErr path n ⊆ dirPaths path n.
Proof.
  induction n as [name meta | name meta children rderr IH]
    using Node_forall_ind; intros path; [done|].
  rewrite dirPaths_Dir.
  destruct meta as [m|]; [|set_solver]. destruct rderr; [set_solver|].
  rewrite watchable_Dir. destruct (skipName name); [set_solver|].
  assert (watchableIn addErr path children ⊆ dirPathsIn path children).
  { induction IH as [|c cs Hc _ IHcs]; simpl; [done|].
    specialize (Hc (Join path (nodeName c))). set_solver. }
  destruct (addErr path); set_solver.
Qed.

(** X10. [AddRecursive] returns nil on every file system, whatever the walk
    meets and whatever the fsnotify watcher refuses.  The watches it
    adds are those of the directories with metadata that can be listed,
    reached through such directories, whose name is not skipped and which
    the fsnotify watcher accepts; they are directories of the tree.  It
    leaves the buffer of pending events, the debounce, the flush interval
    and the probes of the watcher as they are. *)
Theorem addRecursive_watches root fs w :
  let out := AddRecursive addErr root fs w in
  out.2 = None
  /\ watches out.1 = fsWatchable addErr root fs ∪ watches w
  /\ fsWatchable addErr root fs ⊆ fsDirPaths root fs
  /\ pending out.1 = pending w
  /\ debounce out.1 = debounce w
  /\ flush out.1 = flush w
  /\ probes out.1 = probes w.
Proof.
  cbv zeta. unfold AddRecursive.
  destruct fs as [n|]; [destruct (lstat n) as [info|] eqn:Hl|].
  - rewrite (Walk_readable _ _ _ _ _ Hl).
    destruct (addFn_walk n root info w Hl) as (Hr & Hw & Hp & Hd & Hf & Hb).
    destruct (walk (addFn addErr) root n info w) as [w' r]. simpl in *.
    split; [destruct Hr as [->|[-> _]]; reflexivity|].
    split; [exact Hw|]. split; [apply watchable_dirPaths|done].
  - unfold Walk. rewrite Hl. simpl.
    rewrite (lstat_None_watchable _ _ Hl).
    split; [done|]. split; [set_solver|]. split; [set_solver|done].
  - simpl. split; [done|]. split; [set_solver|]. split; [set_solver|done].
Qed.

End WatcherWalk.

(** ** The watcher: what a flush and a run conserve *)

Section WatcherConservation.
Import watcher.
Context {H : Type} (handler : Handler H).

Lemma flush_sizes now (st : State H) :
  (size (pending (wat (flushPending handler now st)))
   + length (handled (flushPending handler now st))
   = size (pending (wat st)) + length (handled st))%nat.
Proof.
  rewrite flush_pending, flush_handled, length_app, !length_map.
  rewrite length_map_to_list.
  pose proof (map_size_disj_union
                (filter (due (wat st) now) (pending (wat st)))
                (filter (fun kv => ¬ due (wat st) now kv) (pending (wat st)))
                (map_disjoint_filter_complement _ _)) as Hsz.
  rewrite map_filter_union_complement in Hsz.
  unfold size in *. lia.
Qed.


Lemma step_sizes (st : State H) m :
  (length (handled (step handler st m))
   + size (pending (wat (step handler st m)))
   <= length (handled st) + size (pending (wat st))
      + (if taken m then 1 else 0))%nat.
Proof.
  destruct m as [now event|err|now]; simpl.
  - unfold handleEvent.
    destruct (Z.land (fsnotify.EOp event) relevantOps =? 0); simpl; [lia|].
    assert (Hins : (size (<[fsnotify.Name event :=
                             {| Path := fsnotify.Name event;
                                Op := fsnotify.EOp event; Time := now |}]>
                            (pending (wat st)))
                    <= S (size (pending (wat st))))%nat).
    { destruct (pending (wat st) !! fsnotify.Name event) as [e|] eqn:He.
      - rewrite map_size_insert_Some by eauto. lia.
      - rewrite map_size_insert_None by done. lia. }
    destruct (negb _); simpl; lia.
  - lia.
  - pose proof (flush_sizes now st). lia.
Qed.

(** X12. Along a run, the calls of the handler and the entries of the buffer
    are together at most those of the start and one for each notification
    of a kind the watcher takes: the handler is never called more often
    than notifications came in. *)
Theorem watcher_calls_bounded ms st :
  (length (handled (after handler ms st))
   + size (pending (wat (after handler ms st)))
   <= length (handled st) + size (pending (wat st)) + notifications ms)%nat.
Proof.
  revert st. induction ms as [|m ms IH]; intros st.
  - unfold notifications; simpl. lia.
  - change (after handler (m :: ms) st) with (after handler ms (step handler st m)).
    specialize (IH (step handler st m)).
    pose proof (step_sizes st m) as Hs.
    unfold notifications in *. simpl. destruct (taken m); simpl; lia.
Qed.

End WatcherConservation.

Section WatcherBlind.
Import watcher.






End WatcherBlind.

(** ** The attribute of ignored paths *)

Section XattrFacts.
Import xattr.
Context (goos : GOOS).

Lemma isNoAttrError_spec err :
  isNoAttrError goos err = bool_decide (err = Some (noAttr goos)).
Proof. destruct goos; reflexivity. Qed.

(** X14. Whatever [Getxattr] returns, [IsIgnored] never answers [true]
    together with an error: it answers [true] and nil exactly on a size
    that is not negative without an error, whatever the value of the
    attribute; [false] and nil on the error of the platform for a missing
    attribute; and [false] with the error on any other error.
    [RemoveIgnored] returns nil on the error for a missing attribute and
    the result of [Removexattr] otherwise. *)
Theorem isIgnored_answers (sz : Z) (err : option error) path st :
  ignoredOf goos (sz, err)
  = (if decide (err = Some (noAttr goos)) then (false, None)
     else match err with
          | Some e => (false, Some e)
          | None => (0 <=? sz, None)
          end)
  /\ ((IsIgnored goos path st).1 = false
      \/ ((IsIgnored goos path st).2 = None
          /\ fault st path = None
          /\ is_Some (attrs st !! (path, getAttrName goos))))
  /\ (RemoveIgnored goos path st).2
     = (if decide ((Removexattr goos path (getAttrName goos) st).2
                   = Some (noAttr goos))
        then None else (Removexattr goos path (getAttrName goos) st).2).
Proof.
  split; [|split].
  - unfold ignoredOf. rewrite isNoAttrError_spec. simpl.
    case_bool_decide as He; case_decide; try done.
    destruct err as [e|]; simpl; [by rewrite andb_false_r|].
    by rewrite andb_true_r.
  - unfold IsIgnored, ignoredOf, Getxattr. rewrite isNoAttrError_spec.
    destruct (fault st path) as [e|]; simpl.
    + left. case_bool_decide; simpl; [reflexivity|]. by rewrite ?andb_false_r.
    + destruct (attrs st !! (path, getAttrName goos)) as [v|] eqn:Hv; simpl.
      * right. eauto.
      * left. by rewrite ?bool_decide_eq_true_2.
  - unfold RemoveIgnored.
    destruct (Removexattr goos path (getAttrName goos) st) as [st' e].
    rewrite isNoAttrError_spec. simpl.
    case_bool_decide; case_decide; done.
Qed.

Lemma SetIgnored_ok path st :
  fault st path = None ->
  SetIgnored goos path st
  = ({| attrs := <[(path, getAttrName goos) := attrValue]> (attrs st);
        fault := fault st |}, None).
Proof. intros Hf. unfold SetIgnored, Setxattr. by rewrite Hf. Qed.

Lemma IsIgnored_present path st v :
  fault st path = None ->
  attrs st !! (path, getAttrName goos) = Some v ->
  IsIgnored goos path st = (true, None).
Proof.
  intros Hf Hv. unfold IsIgnored, ignoredOf, Getxattr.
  rewrite Hf, Hv, isNoAttrError_spec. simpl. rewrite ?andb_true_r.
  destruct (Z.leb_spec 0 (Z.of_nat (String.length v))); [reflexivity | lia].
Qed.

Lemma IsIgnored_missing path st :
  fault st path = None ->
  attrs st !! (path, getAttrName goos) = None ->
  IsIgnored goos path st = (false, None).
Proof.
  intros Hf Hv. unfold IsIgnored, ignoredOf, Getxattr.
  rewrite Hf, Hv, isNoAttrError_spec. simpl.
  by rewrite ?bool_decide_eq_true_2.
Qed.


End XattrFacts.

(** ** The handler of the daemon *)

Ltac handler_cases :=
  unfold daemon.createHandler, daemon.remember, daemon.printf,
    daemon.setCache, daemon.setFiles; simpl;
  repeat case_match; simplify_eq/=.

Section DaemonHandler.
Import daemon.
Context (goos : xattr.GOOS).
Context (shouldIgnore : string -> bool * option error).

Lemma Has_ttl now path info c : state.ttl (state.Has now path info c).2 = state.ttl c.
Proof.
  unfold state.Has. destruct (state.entries c !! path) as [e|]; [|reflexivity].
  destruct (state.ttl c <? _); reflexivity.
Qed.

Lemma SetIgnored_fault path st :
  xattr.fault (xattr.SetIgnored goos path st).1 = xattr.fault st.
Proof.
  unfold xattr.SetIgnored, xattr.Setxattr.
  destruct (xattr.fault st path); reflexivity.
Qed.

(** X16. The handler returns nil or [ErrSkipDir], nothing else: an error of
    the matcher or of a call on the attribute is logged and not
    returned, so a scan goes on.  It returns [ErrSkipDir] only for a
    directory that the matcher ignores, and has then put the path in the
    cache.  It only adds to its log and keeps the TTL of the cache. *)
Theorem handler_returns dryRun nowHas nowAdd path info w :
  let out := createHandler goos shouldIgnore dryRun nowHas nowAdd path info w in
  (out.2 = None
   \/ (out.2 = Some ErrSkipDir
       /\ fiIsDir info = true
       /\ shouldIgnore path = (true, None)
       /\ state.entries (cache out.1) !! path
          = Some {| state.Inode := state.getInode info;
                    state.Mtime := fiModTime info;
                    state.Added := nowAdd |}))
  /\ logger w `prefix_of` logger out.1
  /\ state.ttl (cache out.1) = state.ttl (cache w).
Proof.
  cbv zeta.
  pose proof (Has_ttl nowHas path info (cache w)) as Httl.
  handler_cases;
    (split; [first [by left | right; repeat split; try done;
                               apply Has_Add_lookup]|]);
    (split; [first [done | by apply prefix_app_r]|]); done.
Qed.

Lemma createHandler_files_cases dryRun nowHas nowAdd path info w :
  let out := createHandler goos shouldIgnore dryRun nowHas nowAdd path info w in
  files out.1 = files w
  \/ (dryRun = false
      /\ shouldIgnore path = (true, None)
      /\ (state.Has nowHas path info (cache w)).1 = false
      /\ xattr.IsIgnored goos path (files w) = (false, None)
      /\ xattr.SetIgnored goos path (files w) = (files out.1, None)).
Proof. cbv zeta. handler_cases; first [by left | by right]. Qed.

Lemma createHandler_dry nowHas nowAdd path info w :
  files (createHandler goos shouldIgnore true nowHas nowAdd path info w).1
  = files w.
Proof. handler_cases; done. Qed.

Lemma createHandler_attrs_mono dryRun nowHas nowAdd path info w :
  xattr.attrs (files w)
  ⊆ xattr.attrs
      (files (createHandler goos shouldIgnore dryRun nowHas nowAdd path info w).1).
Proof.
  handler_cases; try done.
  all: match goal with
       | Hs : xattr.SetIgnored _ _ _ = _, Hi : xattr.IsIgnored _ _ _ = _ |- _ =>
           unfold xattr.SetIgnored, xattr.Setxattr in Hs;
           unfold xattr.IsIgnored, xattr.ignoredOf, xattr.Getxattr in Hi
       end.
  all: destruct (xattr.fault (files w) path); simplify_eq/=.
  all: destruct (xattr.attrs (files w) !! (path, xattr.getAttrName goos))
         eqn:Hl; [exfalso | by apply insert_subseteq].
  all: match goal with
       | Hi : _ = (false, None) |- _ =>
           rewrite isNoAttrError_spec in Hi;
           simpl in Hi; rewrite ?andb_true_r in Hi; injection Hi as Hi;
           apply Z.leb_gt in Hi; lia
       end.
Qed.

(** X17. The handler changes the attributes of the files in one way only: a
    call that is no dry run, for a path the matcher ignores, that is not
    in the cache and not marked, sets the attribute of this path.  A dry
    run changes no attribute; and no call removes or changes an attribute
    that is there. *)
Theorem handler_files dryRun nowHas nowAdd path info w :
  let out := createHandler goos shouldIgnore dryRun nowHas nowAdd path info w in
  files (createHandler goos shouldIgnore true nowHas nowAdd path info w).1
  = files w
  /\ (files out.1 = files w
      \/ (dryRun = false
          /\ shouldIgnore path = (true, None)
          /\ (state.Has nowHas path info (cache w)).1 = false
          /\ xattr.IsIgnored goos path (files w) = (false, None)
          /\ xattr.SetIgnored goos path (files w) = (files out.1, None)))
  /\ xattr.attrs (files w) ⊆ xattr.attrs (files out.1)
  /\ xattr.fault (files out.1) = xattr.fault (files w).
Proof.
  cbv zeta. split; [apply createHandler_dry|].
  split; [apply createHandler_files_cases|].
  split; [apply createHandler_attrs_mono|].
  pose proof (SetIgnored_fault path (files w)) as Hf.
  handler_cases; try done.
Qed.




Lemma setCache_cache w : setCache (cache w) w = w.
Proof. by destruct w. Qed.

(** A call that is no dry run on a path that the matcher ignores, that
    is not in the cache and on which the system calls do not fail. *)
Lemma createHandler_marks nowHas nowAdd path info w :
  (state.Has nowHas path info (cache w)).1 = false ->
  shouldIgnore path = (true, None) ->
  xattr.fault (files w) path = None ->
  let out := createHandler goos shouldIgnore false nowHas nowAdd path info w in
  out.2 = (if fiIsDir info then Some ErrSkipDir else None)
  /\ xattr.IsIgnored goos path (files out.1) = (true, None)
  /\ cache out.1
     = state.Add nowAdd path info (state.Has nowHas path info (cache w)).2.
Proof.
  intros Hhas Hm Hf. cbv zeta. unfold createHandler.
  destruct (state.Has nowHas path info (cache w)) as [b c]. simpl in Hhas.
  subst b. rewrite Hm. cbn [files setCache].
  destruct (xattr.attrs (files w) !! (path, xattr.getAttrName goos))
    as [v|] eqn:Hv.
  - rewrite (IsIgnored_present goos path (files w) v Hf Hv).
    unfold remember; simpl. split; [reflexivity|].
    split; [exact (IsIgnored_present goos path (files w) v Hf Hv) | reflexivity].
  - rewrite (IsIgnored_missing goos path (files w) Hf Hv).
    rewrite (SetIgnored_ok goos path (files w) Hf).
    unfold remember; simpl. split; [reflexivity|].
    split; [|reflexivity].
    by apply (IsIgnored_present goos path _ xattr.attrValue), lookup_insert_eq.
Qed.

(** X18. A call that is no dry run, for a path that the matcher ignores, that
    the cache does not hold and on which the system calls do not fail,
    leaves the path marked and in the cache, whether it was marked before
    or not, and returns [ErrSkipDir] for a directory and nil for a file.
    While the entry of the cache is not older than the TTL, a further
    call for the file with the same inode and modification time is a hit
    of the cache: it returns nil, also for a marked directory, and
    changes nothing. *)
Theorem handler_marks_then_hits nowHas nowAdd nowHas' nowAdd' dryRun' path info w :
  (state.Has nowHas path info (cache w)).1 = false ->
  shouldIgnore path = (true, None) ->
  xattr.fault (files w) path = None ->
  time.Since nowHas' nowAdd <= state.ttl (cache w) ->
  let out := createHandler goos shouldIgnore false nowHas nowAdd path info w in
  out.2 = (if fiIsDir info then Some ErrSkipDir else None)
  /\ xattr.IsIgnored goos path (files out.1) = (true, None)
  /\ createHandler goos shouldIgnore dryRun' nowHas' nowAdd' path info out.1
     = (out.1, None).
Proof.
  intros Hhas Hm Hf Hage.
  destruct (createHandler_marks nowHas nowAdd path info w Hhas Hm Hf)
    as (Hr & Hi & Hc).
  cbv zeta. split; [exact Hr|]. split; [exact Hi|].
  set (out := createHandler goos shouldIgnore false nowHas nowAdd path info w)
    in *.
  unfold createHandler at 1.
  assert (Hhit : state.Has nowHas' path info (cache out.1)
                 = (true, cache out.1)).
  { rewrite Hc.
    rewrite (Has_fresh nowHas' path info _ _ (Has_Add_lookup nowAdd path info _)).
    - simpl. unfold time.Equal. by rewrite !Z.eqb_refl.
    - simpl. rewrite Has_ttl. exact Hage. }
  rewrite Hhit. by rewrite setCache_cache.
Qed.

(** X19. The handler the daemon gives to the watcher returns what the handler
    returns, so the [ErrSkipDir] that tells the poller to prune a marked
    directory reaches the watcher as an error: for an event on a
    directory that the call marks, the flush logs a handler error
    although nothing failed.  When [os.Stat] fails on the path of the
    event the call does nothing and returns nil. *)
Theorem watcher_logs_marked_dir stat nowHas nowAdd now
    (st : watcher.State World) event info :
  stat (watcher.Path event) = Some info ->
  fiIsDir info = true ->
  (state.Has nowHas (watcher.Path event) info (cache (watcher.hstate st))).1
    = false ->
  shouldIgnore (watcher.Path event) = (true, None) ->
  xattr.fault (files (watcher.hstate st)) (watcher.Path event) = None ->
  let handler := watcherHandler goos shouldIgnore false stat nowHas nowAdd in
  let st' := watcher.process handler now st event in
  watcher.logger (watcher.wat st')
  = watcher.logger (watcher.wat st)
    ++ [watcher.LogHandlerError (watcher.Path event) ErrSkipDir]
  /\ xattr.IsIgnored goos (watcher.Path event) (files (watcher.hstate st'))
     = (true, None)
  /\ (forall st0 ev0,
        stat (watcher.Path ev0) = None ->
        watcher.process handler now st0 ev0
        = watcher.mkState (watcher.wat st0) (watcher.hstate st0)
                          (watcher.handled st0 ++ [(ev0, now)])).
Proof.
  intros Hstat Hdir Hhas Hm Hf. cbv zeta.
  destruct (createHandler_marks nowHas nowAdd (watcher.Path event) info
              (watcher.hstate st) Hhas Hm Hf) as (Hr & Hi & _).
  rewrite Hdir in Hr.
  unfold watcher.process, watcherHandler. rewrite Hstat.
  destruct (createHandler goos shouldIgnore false nowHas nowAdd
              (watcher.Path event) info (watcher.hstate st)) as [h' r].
  simpl in Hr, Hi. subst r. simpl. split; [reflexivity|]. split; [exact Hi|].
  intros st0 ev0 Hs0. by rewrite Hs0.
Qed.

End DaemonHandler.

(** ** The state of the handler along a scan and a run *)

Section HandlerState.
Context {H : Type} (J : H -> Prop).

Section OfPoller.
Import filepath poller.
Context (handler : Handler H).
Context (HJ : forall path info h, J h -> J (handler path info h).1).

Lemma scanFn_hstate ls path a s :
  J (hstate s) -> J (hstate (scanFn handler ls path a s).1).
Proof.
  intros Hs. scan_cases;
    match goal with
    | Hh : handler ?p ?i (hstate s) = (?h', _) |- J ?h' =>
        change h' with (h', @None error).1 || idtac;
        pose proof (HJ p i (hstate s) Hs) as Hj; rewrite Hh in Hj; exact Hj
    end.
Qed.

Lemma Scan_hstate now fs p h : J h -> J (rHandler (Scan handler now fs p h)).
Proof.
  intros Hh. destruct (Scan_walk handler now fs p h) as (s & Hw & ->). simpl.
  pose proof (WalkDir_invariant (scanFn handler (lastScan p))
                (fun s => J (hstate s)) (scanFn_hstate (lastScan p))
                (root p) fs
                (mkScanState (printf (LogStartingScan (root p)) (setLastScan now p))
                             0 0 0 ∅ h []) Hh) as Hinv.
  by rewrite Hw in Hinv.
Qed.

Lemma runLoop_hstate msgs : forall p h cs,
  J h -> J (runLoop handler msgs p h cs).1.1.2.
Proof.
  induction msgs as [|[now fs|err] msgs IH]; intros p h cs Hh; simpl;
    [exact Hh | | exact Hh].
  apply IH, Scan_hstate, Hh.
Qed.

Lemma Run_hstate now fs msgs p h : J h -> J (Run handler now fs msgs p h).1.1.2.
Proof. intros Hh. unfold Run. apply runLoop_hstate, Scan_hstate, Hh. Qed.

End OfPoller.

Section OfWatcher.
Import watcher.
Context (handler : Handler H).
Context (HJ : forall event h, J h -> J (handler event h).1).

Lemma foldl_process_hstate now evs : forall st : State H,
  J (hstate st) -> J (hstate (foldl (process handler now) st evs)).
Proof.
  induction evs as [|ev evs IH]; intros st Hs; simpl; [exact Hs|].
  apply IH. unfold process. specialize (HJ ev (hstate st) Hs).
  destruct (handler ev (hstate st)) as [h' r]. exact HJ.
Qed.

Lemma after_hstate ms : forall st : State H,
  J (hstate st) -> J (hstate (after handler ms st)).
Proof.
  induction ms as [|m ms IH]; intros st Hs; [exact Hs|].
  apply IH. destruct m as [now event|err|now]; simpl; try exact Hs.
  unfold flushPending. apply foldl_process_hstate. exact Hs.
Qed.

End OfWatcher.

End HandlerState.

(** ** The daemon along a scan and a run *)

Section DaemonRuns.
Import daemon.
Context (goos : xattr.GOOS).
Context (shouldIgnore : string -> bool * option error).

Lemma watcherHandler_dry stat nowHas nowAdd event w :
  files (watcherHandler goos shouldIgnore true stat nowHas nowAdd event w).1
  = files w.
Proof.
  unfold watcherHandler. destruct (stat (watcher.Path event)); [|reflexivity].
  apply createHandler_dry.
Qed.

(** X20. With [--dry-run] the daemon changes no attribute of any file: not in
    a scan, not in the loop of scans of the poller, and not in a run of
    the watcher, whatever the file system, the matcher, the clock and
    the events. *)
Theorem dry_run_keeps_files handler whandler now fs msgs p w ms st :
  handlerOf goos shouldIgnore true handler ->
  watcherHandlerOf goos shouldIgnore true whandler ->
  files (poller.rHandler (poller.Scan handler now fs p w)) = files w
  /\ files (poller.Run handler now fs msgs p w).1.1.2 = files w
  /\ files (watcher.hstate (after whandler ms st))
     = files (watcher.hstate st).
Proof.
  intros Hh Hwh.
  assert (HJ : forall path info h,
            files h = files w -> files (handler path info h).1 = files w).
  { intros path info h Hf. destruct (Hh path info h) as (t1 & t2 & ->).
    by rewrite createHandler_dry. }
  assert (HJw : forall event h,
            files h = files (watcher.hstate st) ->
            files (whandler event h).1 = files (watcher.hstate st)).
  { intros event h Hf. destruct (Hwh event h) as (stat & t1 & t2 & ->).
    by rewrite watcherHandler_dry. }
  split; [|split].
  - by apply (Scan_hstate (fun h => files h = files w)).
  - by apply (Run_hstate (fun h => files h = files w)).
  - by apply (after_hstate (fun h => files h = files (watcher.hstate st))).
Qed.




End DaemonRuns.
(** ** Examples of the further properties *)

Section MoreExamples.
Import filepath.

Lemma setSkipDir_rule_witness :
  poller.skipName (poller.SetSkipDir ".git" false demoPoller) ".git" = true
  /\ poller.skipName (poller.SetSkipDir "node_modules" false demoPoller)
       "node_modules" = false.
Proof.
  pose proof (setSkipDir_rule ".git" false demoPoller ".git")
    as (_ & _ & _ & Hdot & _).
  pose proof (setSkipDir_rule "node_modules" false demoPoller "node_modules")
    as (_ & _ & _ & _ & Hplain).
  split; [apply Hdot; [reflexivity | discriminate] | apply Hplain; reflexivity].
Defined.

Lemma scan_unreadable_root_witness :
  poller.dirModTime rememberingPoller !! "/r" = Some 100
  /\ poller.Scan handleAll 2000 (Some lostTree) rememberingPoller tt
     = poller.mkScanResult
         {| poller.root := poller.root rememberingPoller;
            poller.interval := poller.interval rememberingPoller;
            poller.lastScan := 2000;
            poller.dirModTime := ∅;
            poller.logger :=
              poller.logger rememberingPoller
              ++ [poller.LogStartingScan (poller.root rememberingPoller);
                  poller.LogWalkError (poller.root rememberingPoller) lstatError;
                  poller.LogScanCompleted 0 0 0];
            poller.skipDirs := poller.skipDirs rememberingPoller |}
         tt [] ∅ None.
Proof.
  split; [vm_compute; reflexivity|].
  apply (scan_unreadable_root handleAll 2000 (Some lostTree) rememberingPoller tt).
  reflexivity.
Defined.

Lemma clearCache_rescans_witness :
  poller.shouldSkipDir rememberingPoller "/r" (mModTime demoMeta) = true
  /\ (Join (poller.root rememberingPoller) "subdir", dirInfo "subdir" demoMeta)
     ∈ poller.rCalls
         (poller.Scan handleAll 2000
            (Some (Dir "r" (Some demoMeta)
                     [Dir "subdir" (Some demoMeta)
                        [File "file.txt" (Some demoMeta)] None]
                     None))
            (poller.ClearCache rememberingPoller) tt).
Proof.
  split; [vm_compute; reflexivity|].
  apply (clearCache_rescans handleAll 2000 "r" demoMeta "subdir" demoMeta
           [File "file.txt" (Some demoMeta)] None [] rememberingPoller tt).
  - vm_compute. reflexivity.
  - intros h' e Hh. discriminate Hh.
Defined.



Lemma handler_marks_then_hits_witness :
  let out := daemon.createHandler xattr.Linux ignoreBuild false 0 (ms 10)
               "/r/build" buildInfo demoWorld in
  out.2 = Some ErrSkipDir
  /\ xattr.IsIgnored xattr.Linux "/r/build" (daemon.files out.1) = (true, None)
  /\ daemon.createHandler xattr.Linux ignoreBuild false (ms 30000) (ms 30010)
       "/r/build" buildInfo out.1
     = (out.1, None).
Proof.
  apply (handler_marks_then_hits xattr.Linux ignoreBuild 0 (ms 10) (ms 30000)
           (ms 30010) false "/r/build" buildInfo demoWorld);
    [reflexivity | reflexivity | reflexivity | vm_compute; discriminate].
Defined.

Lemma watcher_logs_marked_dir_witness :
  let handler := daemon.watcherHandler xattr.Linux ignoreBuild false statBuild
                   0 (ms 10) in
  watcher.logger
    (watcher.wat (watcher.process handler (ms 800) daemonWatcher buildCreated))
  = watcher.logger (watcher.wat daemonWatcher)
    ++ [watcher.LogHandlerError "/r/build" ErrSkipDir].
Proof.
  apply (watcher_logs_marked_dir xattr.Linux ignoreBuild statBuild 0 (ms 10)
           (ms 800) daemonWatcher buildCreated buildInfo);
    reflexivity.
Defined.

Lemma dry_run_keeps_files_witness :
  let handler := daemon.createHandler xattr.Linux ignoreBuild true 0 (ms 10) in
  let whandler := daemon.watcherHandler xattr.Linux ignoreBuild true statBuild
                    0 (ms 10) in
  daemon.files
    (poller.rHandler (poller.Scan handler 1000 (Some buildTree) demoPoller
                        demoWorld))
  = daemon.files demoWorld
  /\ daemon.files
       (poller.Run handler 1000 (Some buildTree)
          [poller.Tick 2000 (Some buildTree); poller.Done Canceled]
          demoPoller demoWorld).1.1.2
     = daemon.files demoWorld
  /\ daemon.files
       (watcher.hstate
          (after whandler
             [watcher.GotEvent (ms 0) (fsnotify.mkEvent "/r/build" fsnotify.Create);
              watcher.FlushTick (ms 800)]
             daemonWatcher))
     = daemon.files (watcher.hstate daemonWatcher).
Proof.
  apply (dry_run_keeps_files xattr.Linux ignoreBuild).
  - intros path info w. exists 0, (ms 10). reflexivity.
  - intros event w. exists statBuild, 0, (ms 10). reflexivity.
Defined.


End MoreExamples.
(** ** The watcher: the probe of a new directory *)

Section WatcherProbe.
Import filepath watcher.
Context (addErr : string -> option error).

Lemma create_relevant op :
  Z.land op fsnotify.Create <> 0 -> Z.land op relevantOps <> 0.
Proof.
  intros Hc Hr. apply Hc. apply Z.bits_inj'. intros n Hn.
  rewrite Z.land_spec, Z.bits_0.
  assert (Hbit : Z.testbit (Z.land op relevantOps) n = false)
    by (rewrite Hr; apply Z.bits_0).
  rewrite Z.land_spec in Hbit.
  destruct (decide (n = 0)) as [->|Hne].
  - change (Z.testbit relevantOps 0) with true in Hbit.
    rewrite andb_true_r in Hbit. rewrite Hbit. reflexivity.
  - replace (Z.testbit fsnotify.Create n) with false; [apply andb_false_r|].
    symmetry. change fsnotify.Create with (2 ^ 0).
    apply Z.pow2_bits_false. lia.
Qed.

(** X22. [handleEvent] starts the probe of a new directory for every
    notification whose kind has Create, and for no other: the test of
    the kinds at its start never drops one.  Neither [handleEvent] nor
    the probe changes the other's part of the watcher: [handleEvent]
    adds no watch, the probe leaves the buffer.  The probe follows the
    rule of [AddRecursive] on the directory alone: it adds the watch that
    [AddRecursive] adds for a directory without entries at that path, and
    none when [os.Stat] fails or finds no directory. *)
Theorem probe_new_directory now event path name stat m w :
  probes (handleEvent now event w)
  = (if Z.land (fsnotify.EOp event) fsnotify.Create =? 0 then probes w
     else probes w ++ [fsnotify.Name event])
  /\ watches (handleEvent now event w) = watches w
  /\ pending (probeNewDir addErr path name stat w) = pending w
  /\ watches (probeNewDir addErr path name stat w)
     = (if decide (stat = Some true)
        then watchable addErr path (Dir name (Some m) [] None) else ∅)
       ∪ watches w.
Proof.
  split; [|split; [|split]].
  - unfold handleEvent.
    destruct (Z.eqb_spec (Z.land (fsnotify.EOp event) fsnotify.Create) 0)
      as [Hc|Hc]; simpl.
    + destruct (Z.land (fsnotify.EOp event) relevantOps =? 0); reflexivity.
    + apply create_relevant in Hc. apply Z.eqb_neq in Hc. rewrite Hc.
      reflexivity.
  - unfold handleEvent.
    destruct (Z.land (fsnotify.EOp event) relevantOps =? 0); [reflexivity|].
    destruct (negb _); reflexivity.
  - unfold probeNewDir, Add. destruct stat as [[|]|]; try reflexivity.
    destruct (skipName name); [reflexivity|].
    destruct (addErr path); reflexivity.
  - unfold probeNewDir, Add. destruct stat as [[|]|].
    + rewrite decide_True by reflexivity. simpl.
      destruct (skipName name); [set_solver|].
      destruct (addErr path); simpl; set_solver.
    + rewrite decide_False by discriminate. set_solver.
    + rewrite decide_False by discriminate. set_solver.
Qed.

End WatcherProbe.

(** ** The daemon in a scan *)

Section DaemonScan.
Import filepath poller.
Context (goos : xattr.GOOS).
Context (shouldIgnore : string -> bool * option error).
Context (handler : Handler daemon.World).

(** X23. In a scan of the daemon that is no dry run, a directory that
    the matcher ignores, that the cache does not hold and on which the
    system calls do not fail is marked and pruned: the walk of its
    subtree is the one call of the handler for the directory, counted as
    skipped, and no modification time is remembered for it.  When the
    cache holds the directory, the handler answers nil, and a scan that
    remembers no modification time for it enters it unless its name is
    one to skip, marked or not. *)
Theorem daemon_scan_prunes_marked ls path name meta children rderr s nowHas nowAdd :
  let info := dirInfo name meta in
  let node := Dir name (Some meta) children rderr in
  (handler path info (hstate s)
   = daemon.createHandler goos shouldIgnore false nowHas nowAdd path info
       (hstate s)) ->
  ((state.Has nowHas path info (daemon.cache (hstate s))).1 = false ->
   shouldIgnore path = (true, None) ->
   xattr.fault (daemon.files (hstate s)) path = None ->
   let out := walkDir (scanFn handler ls) path node s in
   out.2 = None
   /\ calls out.1 = calls s ++ [(path, info)]
   /\ xattr.IsIgnored goos path (daemon.files (hstate out.1)) = (true, None)
   /\ skippedDirs out.1 = skippedDirs s + 1
   /\ dirModTime (pol out.1) = dirModTime (pol s))
  /\ ((state.Has nowHas path info (daemon.cache (hstate s))).1 = true ->
      skipName (pol s) name = false ->
      dirModTime (pol s) !! path = None ->
      (scanFn handler ls path (Visit (dirEntry node)) s).2 = None).
Proof.
  intros info node Hh. split.
  - intros Hhas Hm Hf.
    destruct (createHandler_marks goos shouldIgnore nowHas nowAdd path info
                (hstate s) Hhas Hm Hf) as (Hr & Hi & _).
    rewrite <- Hh in Hr, Hi. simpl in Hr.
    destruct (handler path info (hstate s)) as [h' r] eqn:Hcall.
    simpl in Hr, Hi. subst r.
    pose proof (scanFn_dir_skipErr handler ls path name meta children rderr s
                  h' ErrSkipDir Hcall eq_refl) as Hfn.
    cbv zeta. unfold node.
    rewrite (walkDir_Dir_skip _ _ _ _ _ _ _ _ Hfn). simpl.
    repeat split; assumption.
  - intros Hhas Hn Hl.
    apply scanFn_dir_descends; [exact Hl | exact Hn |].
    intros h' e Hcall. exfalso. fold info in Hcall. rewrite Hh in Hcall.
    unfold daemon.createHandler in Hcall.
    destruct (state.Has nowHas path info (daemon.cache (hstate s))) as [b c].
    simpl in Hhas. subst b. discriminate Hcall.
Qed.

End DaemonScan.

Section DaemonScanExamples.
Import filepath poller.

Lemma daemon_scan_prunes_marked_witness :
  let handler := daemon.createHandler xattr.Linux ignoreBuild false 0 (ms 10) in
  let s := mkScanState demoPoller 0 1 0 {["/r"]} demoWorld [] in
  let out := walkDir (scanFn handler 0) "/r/build"
               (Dir "build" (Some demoMeta) [File "out.o" (Some demoMeta)] None)
               s in
  out.2 = None
  /\ calls out.1 = calls s ++ [("/r/build", dirInfo "build" demoMeta)]
  /\ xattr.IsIgnored xattr.Linux "/r/build" (daemon.files (hstate out.1))
     = (true, None)
  /\ skippedDirs out.1 = skippedDirs s + 1
  /\ dirModTime (pol out.1) = dirModTime (pol s).
Proof.
  apply (daemon_scan_prunes_marked xattr.Linux ignoreBuild
           (daemon.createHandler xattr.Linux ignoreBuild false 0 (ms 10))
           0 "/r/build" "build" demoMeta [File "out.o" (Some demoMeta)] None
           (mkScanState demoPoller 0 1 0 {["/r"]} demoWorld []) 0 (ms 10));
    reflexivity.
Defined.

End DaemonScanExamples.
